(** * The deployment fabricator of [src/extensions/extensionsHelper.ts]

    A shallow embedding of the [Fabricator] class (the reconciler that
    applies a deployment plan) and the properties of its plan, changeset,
    endpoint and trigger operations; and of two helpers of the extensions
    commands, [populateDefaultParams] and [promptForValidInstanceId].

    Conventions of the embedding.
    - JavaScript objects that the code mutates and shares by reference
      ([Endpoint]s, [SourceTokenScraper]s) live in a [Store]; arrays of the
      plan hold references.
    - An [async] method is a computation of the monad [M]: it threads the
      store and either returns a value or throws (a rejected promise).
      Mutations made before a throw stay in the store, as in JavaScript.
    - The cloud clients are opaque collaborators: every call is appended to
      [log] and answered by an oracle of the [World], which sees the whole
      history of calls issued before it.
    - [utils.allSettled] over promises created in a loop runs the tasks to
      completion one after the other in creation order: the schedule of the
      event loop in which the calls awaited by a task are served before
      those of the tasks created after it. *)

From Stdlib Require Import List Ascii String ZArith Bool Lia Permutation.
Import ListNotations.
#[local] Open Scope string_scope.
#[local] Open Scope Z_scope.
#[local] Open Scope list_scope.

(** ** JavaScript values *)

(** Truthiness of [string | undefined]: [undefined] and [""] are falsy. *)
Definition truthy_string (o : option string) : option string :=
  match o with
  | Some s => if String.eqb s "" then None else Some s
  | None => None
  end.

(** Truthiness of [number | undefined]: [undefined] and [0] are falsy. *)
Definition truthy_number (o : option Z) : option Z :=
  match o with
  | Some 0 => None
  | Some n => Some n
  | None => None
  end.

(** [a || d] on a value whose truthy part is [o]. *)
Definition or_else {A : Type} (o : option A) (d : A) : A :=
  match o with
  | Some a => a
  | None => d
  end.

(** [Array.prototype.includes] on strings. *)
Definition includes (l : list string) (x : string) : bool :=
  existsb (String.eqb x) l.

(** [{ ...a, ...b }] on string records: the keys of [b] win. *)
Definition spread (a b : list (string * string)) : list (string * string) :=
  filter (fun kv => negb (existsb (fun kv' => String.eqb (fst kv) (fst kv')) b)) a ++ b.

(** ** Data model (backend.ts, planner.ts, reporter.ts as used by the source) *)

(** Identity of an [Endpoint] object. *)
Definition ref := nat.

(** Identity of a [SourceTokenScraper] object. *)
Definition scraper_ref := nat.

Inductive Platform : Type :=
| gcfv1
| gcfv2.

(** The trigger of an endpoint: exactly one of the six variants. *)
Inductive Triggered : Type :=
| HttpsTriggered (invoker : option (list string))
| CallableTriggered
| ScheduleTriggered (schedule : string)
| EventTriggered (eventType : string)
| TaskQueueTriggered (invoker : option (list string))
| BlockingTriggered (eventType : string).

Record Endpoint : Type := mkEndpoint {
  ep_id : string;
  ep_region : string;
  ep_project : string;
  ep_platform : Platform;
  ep_trigger : Triggered;
  ep_runtime : string;
  ep_availableMemoryMb : option Z;
  ep_concurrency : option Z;
  ep_labels : list (string * string);
  ep_uri : option string
}.

Definition set_labels (l : list (string * string)) (e : Endpoint) : Endpoint :=
  mkEndpoint (ep_id e) (ep_region e) (ep_project e) (ep_platform e) (ep_trigger e)
    (ep_runtime e) (ep_availableMemoryMb e) (ep_concurrency e) l (ep_uri e).

Definition set_uri (u : option string) (e : Endpoint) : Endpoint :=
  mkEndpoint (ep_id e) (ep_region e) (ep_project e) (ep_platform e) (ep_trigger e)
    (ep_runtime e) (ep_availableMemoryMb e) (ep_concurrency e) (ep_labels e) u.

Record EndpointUpdate : Type := mkEndpointUpdate {
  upd_endpoint : ref;
  upd_deleteAndRecreate : option ref
}.

Record Changeset : Type := mkChangeset {
  endpointsToCreate : list ref;
  endpointsToUpdate : list EndpointUpdate;
  endpointsToDelete : list ref
}.

(** [Record<string, Changeset>]; [Object.values] follows the insertion order
    of the keys, so the plan is kept as an association list. *)
Definition DeploymentPlan : Type := list (string * Changeset).

Definition Object_values (plan : DeploymentPlan) : list Changeset := map snd plan.

(** [reporter.OperationType], the operation names the source uses. *)
Inductive OperationType : Type :=
| op_create
| op_update
| op_delete
| op_set_invoker
| op_create_topic
| op_set_concurrency
| op_upsert_schedule
| op_upsert_task_queue
| op_register_blocking_trigger
| op_delete_schedule
| op_delete_topic
| op_disable_task_queue
| op_unregister_blocking_trigger.

(** Values that are thrown. *)
Inductive Err : Type :=
| JsError (message : string)
| HttpError (status : Z) (message : string)
| FirebaseError (message : string) (original : Err)
| DeploymentError (endpoint : ref) (op : OperationType) (cause : Err)
| AbortedDeploymentError (endpoint : ref).

Record DeployResult : Type := mkDeployResult {
  dr_endpoint : ref;
  dr_durationMs : Z;
  dr_error : option Err
}.

Record Summary : Type := mkSummary {
  totalTime : Z;
  results : list DeployResult
}.

(** ** Provider-native descriptors (gcp/*.ts as used by the source) *)

Record HttpsTrigger : Type := mkHttpsTrigger {
  securityLevel : option string;
  url : option string
}.

Record CloudFunction : Type := mkCloudFunction {
  cf_name : string;
  cf_sourceUploadUrl : string;
  cf_httpsTrigger : option HttpsTrigger;
  cf_sourceToken : option string
}.

(** [apiFunction.httpsTrigger.securityLevel = level] *)
Definition set_securityLevel (level : string) (f : CloudFunction) : CloudFunction :=
  match cf_httpsTrigger f with
  | Some t =>
      mkCloudFunction (cf_name f) (cf_sourceUploadUrl f)
        (Some (mkHttpsTrigger (Some level) (url t))) (cf_sourceToken f)
  | None => f
  end.

(** [apiFunction.sourceToken = token] *)
Definition set_sourceToken (token : option string) (f : CloudFunction) : CloudFunction :=
  mkCloudFunction (cf_name f) (cf_sourceUploadUrl f) (cf_httpsTrigger f) token.

Record StorageSource : Type := mkStorageSource {
  bucket : string;
  object : string
}.

Record EventTrigger : Type := mkEventTrigger {
  et_eventType : string;
  pubsubTopic : option string
}.

Record ServiceConfig : Type := mkServiceConfig {
  sc_uri : option string;
  sc_service : string
}.

Record CloudFunctionV2 : Type := mkCloudFunctionV2 {
  v2_name : string;
  v2_source : option StorageSource;
  v2_eventTrigger : option EventTrigger;
  v2_serviceConfig : ServiceConfig
}.

(** [delete apiFunction.eventTrigger.pubsubTopic] *)
Definition delete_pubsubTopic (f : CloudFunctionV2) : CloudFunctionV2 :=
  match v2_eventTrigger f with
  | Some t =>
      mkCloudFunctionV2 (v2_name f) (v2_source f)
        (Some (mkEventTrigger (et_eventType t) None)) (v2_serviceConfig f)
  | None => f
  end.

(** A Cloud Run service: [status], [spec.template.metadata.name] and
    [spec.template.spec.containerConcurrency]. *)
Record Service : Type := mkService {
  svc_status : option string;
  svc_template_name : option string;
  containerConcurrency : option Z
}.

(** [delete service.status] *)
Definition delete_status (v : Service) : Service :=
  mkService None (svc_template_name v) (containerConcurrency v).

(** [delete service.spec.template.metadata.name] *)
Definition delete_template_name (v : Service) : Service :=
  mkService (svc_status v) None (containerConcurrency v).

(** [service.spec.template.spec.containerConcurrency = concurrency] *)
Definition set_containerConcurrency (concurrency : Z) (v : Service) : Service :=
  mkService (svc_status v) (svc_template_name v) (Some concurrency).

Record Job : Type := mkJob {
  job_name : string;
  job_topicName : string
}.

Record Queue : Type := mkQueue {
  queue_name : string
}.

Record Operation : Type := mkOperation {
  op_name : string
}.

(** What a poll of a long-running operation shows to [onPoll]. *)
Record OperationTick : Type := mkOperationTick {
  metadata_sourceToken : option string;
  done : bool
}.

Record PollerOptions : Type := mkPollerOptions {
  apiOrigin : string;
  apiVersion : string;
  masterTimeout : Z;
  maxBackoff : Z;
  pollerName : string;
  operationResourceName : string;
  onPoll : option scraper_ref
}.

(** ** Calls to the collaborators *)

Inductive Call : Type :=
| gcf_createFunction (fn : CloudFunction)
| gcf_updateFunction (fn : CloudFunction)
| gcf_deleteFunction (name : string)
| gcf_setInvokerCreate (project name : string) (invoker : list string)
| gcf_setInvokerUpdate (project name : string) (invoker : list string)
| gcfV2_createFunction (fn : CloudFunctionV2)
| gcfV2_updateFunction (fn : CloudFunctionV2)
| gcfV2_deleteFunction (name : string)
| poller_pollOperation (options : PollerOptions)
| pubsub_createTopic (name : string)
| pubsub_deleteTopic (name : string)
| run_setInvokerCreate (project service : string) (invoker : list string)
| run_setInvokerUpdate (project service : string) (invoker : list string)
| run_getService (name : string)
| run_replaceService (name : string) (service : Service)
| scheduler_createOrReplaceJob (job : Job)
| scheduler_deleteJob (name : string)
| cloudtasks_upsertQueue (queue : Queue)
| cloudtasks_setEnqueuer (name : string) (invoker : list string)
| cloudtasks_updateQueue (name state : string)
| services_registerTrigger (endpoint : Endpoint) (update : bool)
| services_unregisterTrigger (endpoint : Endpoint).

(** The calls issued so far, oldest first. *)
Definition History : Type := list Call.

(** The collaborators: each oracle answers a call from the history before
    it, with a rejection ([inl]) or a value ([inr]).  [clock] is the reading
    of the wall clock once a history has been observed. *)
Record World : Type := mkWorld {
  clock : History -> Z;
  w_gcf_createFunction : History -> CloudFunction -> Err + Operation;
  w_gcf_updateFunction : History -> CloudFunction -> Err + Operation;
  w_gcf_deleteFunction : History -> string -> Err + Operation;
  w_gcf_setInvokerCreate : History -> string -> string -> list string -> Err + unit;
  w_gcf_setInvokerUpdate : History -> string -> string -> list string -> Err + unit;
  w_gcfV2_createFunction : History -> CloudFunctionV2 -> Err + Operation;
  w_gcfV2_updateFunction : History -> CloudFunctionV2 -> Err + Operation;
  w_gcfV2_deleteFunction : History -> string -> Err + Operation;
  w_pollOperation_gcf :
    History -> PollerOptions -> list OperationTick * (Err + option CloudFunction);
  w_pollOperation_gcfV2 : History -> PollerOptions -> Err + CloudFunctionV2;
  w_pollOperation_void : History -> PollerOptions -> Err + unit;
  w_pubsub_createTopic : History -> string -> Err + unit;
  w_pubsub_deleteTopic : History -> string -> Err + unit;
  w_run_setInvokerCreate : History -> string -> string -> list string -> Err + unit;
  w_run_setInvokerUpdate : History -> string -> string -> list string -> Err + unit;
  w_run_getService : History -> string -> Err + Service;
  w_run_replaceService : History -> string -> Service -> Err + unit;
  w_scheduler_createOrReplaceJob : History -> Job -> Err + unit;
  w_scheduler_deleteJob : History -> string -> Err + unit;
  w_cloudtasks_upsertQueue : History -> Queue -> Err + unit;
  w_cloudtasks_setEnqueuer : History -> string -> list string -> Err + unit;
  w_cloudtasks_updateQueue : History -> string -> string -> Err + unit;
  w_registerTrigger : History -> Endpoint -> bool -> Err + unit;
  w_unregisterTrigger : History -> Endpoint -> Err + unit
}.

(** Imported constants and pure helpers whose modules are not among the
    sources; the fabricator is verified for every value of them. *)
Record Imports : Type := mkImports {
  functionsOrigin : string;
  functionsV2Origin : string;
  gcf_API_VERSION : string;
  gcfV2_API_VERSION : string;
  DEFAULT_MEMORY : Z;
  MIN_MEMORY_FOR_CONCURRENCY : Z;
  AUTH_BLOCKING_EVENTS : list string;
  deploymentTool_labels : list (string * string);
  backend_functionName : Endpoint -> string;
  gcf_functionFromEndpoint : Endpoint -> string -> CloudFunction;
  gcfV2_functionFromEndpoint : Endpoint -> option StorageSource -> CloudFunctionV2;
  scheduler_jobFromEndpoint : Endpoint -> string -> Job;
  cloudtasks_queueFromEndpoint : Endpoint -> Queue;
  cloudtasks_queueNameForEndpoint : Endpoint -> string
}.

(** ** The store and the monad of asynchronous methods *)

(** Modelled from the spec: the state of a [SourceTokenScraper]
    (./sourceTokenScraper is not among the sources).  "Single pending token
    future per changeset": [None] while pending, [Some t] once resolved. *)
Definition ScraperState : Type := option string.

Record Store : Type := mkStore {
  objects : ref -> Endpoint;
  scrapers : list ScraperState;
  triggerQueue : option Err;
  log : History
}.

Definition M (A : Type) : Type := Store -> Store * (Err + A).

Definition ret {A : Type} (a : A) : M A := fun s => (s, inr a).

Definition throw {A : Type} (e : Err) : M A := fun s => (s, inl e).

Definition bind {A B : Type} (m : M A) (f : A -> M B) : M B :=
  fun s =>
    match m s with
    | (s', inr a) => f a s'
    | (s', inl e) => (s', inl e)
    end.

(** [p.catch(h)] *)
Definition catch {A : Type} (m : M A) (h : Err -> M A) : M A :=
  fun s =>
    match m s with
    | (s', inl e) => h e s'
    | (s', inr a) => (s', inr a)
    end.

Declare Scope fab_scope.
Delimit Scope fab_scope with fab.
Notation "x <- m ;; k" := (bind m (fun x => k))
  (at level 61, m at next level, right associativity) : fab_scope.
Notation "m ;; k" := (bind m (fun _ => k))
  (at level 61, right associativity) : fab_scope.
#[local] Open Scope fab_scope.

Inductive PromiseResult (A : Type) : Type :=
| fulfilled (value : A)
| rejected (reason : Err).
Arguments fulfilled {A} value.
Arguments rejected {A} reason.

(** A promise observed by [allSettled]: its outcome, never a throw. *)
Definition settle {A : Type} (p : M A) : M (PromiseResult A) :=
  fun s =>
    match p s with
    | (s', inr a) => (s', inr (fulfilled a))
    | (s', inl e) => (s', inr (rejected e))
    end.

Fixpoint mapM {A B : Type} (f : A -> M B) (l : list A) : M (list B) :=
  match l with
  | [] => ret []
  | a :: l' => b <- f a ;; bs <- mapM f l' ;; ret (b :: bs)
  end.

(** [utils.allSettled(promises)] *)
Definition allSettled {A : Type} (promises : list (M A)) : M (list (PromiseResult A)) :=
  mapM settle promises.

Definition deref (r : ref) : M Endpoint := fun s => (s, inr (objects s r)).

Definition assign (r : ref) (f : Endpoint -> Endpoint) : M unit :=
  fun s =>
    (mkStore (fun r' => if Nat.eqb r' r then f (objects s r) else objects s r')
       (scrapers s) (triggerQueue s) (log s), inr tt).

(** The store once [calls] have been issued. *)
Definition logged (s : Store) (calls : list Call) : Store :=
  mkStore (objects s) (scrapers s) (triggerQueue s) (log s ++ calls).

(** Issue a call: log it and take the answer of the oracle. *)
Definition issue {A : Type} (c : Call) (oracle : History -> Err + A) : M A :=
  fun s => (logged s [c], oracle (log s)).

(** [new Timer()] reads the clock; [timer.stop()] is the time elapsed. *)
Definition Timer_new (w : World) : M Z := fun s => (s, inr (clock w (log s))).

Definition Timer_stop (w : World) (timer : Z) : M Z :=
  fun s => (s, inr (clock w (log s) - timer)).

(** [Executor.run(task)]: the executor's queueing and retry policy is
    delegated; the task runs once. *)
Definition Executor_run {A : Type} (task : M A) : M A := task.

(** ** SourceTokenScraper *)

Definition update_nth {A : Type} (n : nat) (a : A) (l : list A) : list A :=
  firstn n l ++ match skipn n l with
                | [] => []
                | _ :: tl => a :: tl
                end.

Definition scraper_state (s : Store) (scraper : scraper_ref) : ScraperState :=
  nth scraper (scrapers s) None.

(** Modelled from the spec: [new SourceTokenScraper()], whose module is not
    among the sources.  A fresh scraper is allocated with its token pending. *)
Definition SourceTokenScraper_new : M scraper_ref :=
  fun s =>
    (mkStore (objects s) (scrapers s ++ [None]) (triggerQueue s) (log s),
     inr (List.length (scrapers s))).

(** Modelled from the spec: [scraper.tokenPromise()], whose module is not
    among the sources.  The "read accessor" of the single-assignment future:
    it gives "the scraper's current token". *)
Definition tokenPromise (scraper : scraper_ref) : M (option string) :=
  fun s => (s, inr (scraper_state s scraper)).

(** Modelled from the spec: [scraper.poller], whose module is not among the
    sources.  The "write-once setter (for the poll hook)": "first operation to
    report a token resolves it; later operations read the same resolved
    value". *)
Definition scraper_poller (scraper : scraper_ref) (tick : OperationTick) : M unit :=
  fun s =>
    match scraper_state s scraper, metadata_sourceToken tick with
    | None, Some token =>
        (mkStore (objects s) (update_nth scraper (Some token) (scrapers s))
           (triggerQueue s) (log s), inr tt)
    | _, _ => (s, inr tt)
    end.

Fixpoint forEach {A : Type} (l : list A) (body : A -> M unit) : M unit :=
  match l with
  | [] => ret tt
  | a :: l' => body a ;; forEach l' body
  end.

(** ** The fabricator *)

(** [FabricatorArgs] without the two executors, which are collaborators. *)
Record FabricatorArgs : Type := mkFabricatorArgs {
  appEngineLocation : string;
  sourceUrl : option string;
  storage : option (list (string * StorageSource))
}.

(** [record[key]] on a [Record<string, T>]. *)
Fixpoint lookup {T : Type} (record : list (string * T)) (key : string) : option T :=
  match record with
  | [] => None
  | (k, v) :: tl => if String.eqb k key then Some v else lookup tl key
  end.

(** The store right after [new Fabricator(args)]: the trigger queue is
    [Promise.resolve()], nothing has been called yet. *)
Definition constructor (heap : ref -> Endpoint) : Store :=
  mkStore heap [] None [].

Definition DEFAULT_GCFV2_CONCURRENCY : Z := 80.

(** [err.status], defined on the rejections of the HTTP clients. *)
Definition status (err : Err) : option Z :=
  match err with
  | HttpError st _ => Some st
  | _ => None
  end.

Definition taskQueueTrigger_invoker (e : Endpoint) : option (list string) :=
  match ep_trigger e with
  | TaskQueueTriggered invoker => invoker
  | _ => None
  end.

Section Fabricator.

Variable imp : Imports.
Variable w : World.
Variable this : FabricatorArgs.

Definition gcfV1PollerOptions (name operation : string) (hook : option scraper_ref)
  : PollerOptions :=
  mkPollerOptions (functionsOrigin imp) (gcf_API_VERSION imp) (25 * 60 * 1000) 10000
    name operation hook.

Definition gcfV2PollerOptions (name operation : string) : PollerOptions :=
  mkPollerOptions (functionsV2Origin imp) (gcfV2_API_VERSION imp) (25 * 60 * 1000) 10000
    name operation None.

(** [poller.pollOperation] with [onPoll]: every polled snapshot is handed to
    the hook before the terminal resource (or rejection) is delivered. *)
Definition pollOperation_gcf (options : PollerOptions) : M (option CloudFunction) :=
  polled <- issue (poller_pollOperation options)
              (fun h => inr (w_pollOperation_gcf w h options)) ;;
  match onPoll options with
  | Some scraper => forEach (fst polled) (scraper_poller scraper)
  | None => ret tt
  end ;;
  fun s => (s, snd polled).

Definition pollOperation_gcfV2 (options : PollerOptions) : M CloudFunctionV2 :=
  issue (poller_pollOperation options) (fun h => w_pollOperation_gcfV2 w h options).

Definition pollOperation_void (options : PollerOptions) : M unit :=
  issue (poller_pollOperation options) (fun h => w_pollOperation_void w h options).

(** [rethrowAs(endpoint, op)]: log the message, throw a [DeploymentError]. *)
Definition rethrowAs {T : Type} (endpoint : ref) (op : OperationType) (err : Err) : M T :=
  throw (DeploymentError endpoint op err).

(** [this.triggerQueue = this.triggerQueue.then(callback); return this.triggerQueue].
    [then] with a single handler: on a fulfilled queue the callback runs and
    its outcome settles the new queue; on a rejected queue the callback is
    skipped and the new queue is rejected with the same reason. *)
Definition triggerQueue_then (callback : M unit) : M unit :=
  fun s =>
    match triggerQueue s with
    | Some reason => (s, inl reason)
    | None =>
        match callback s with
        | (s', inr _) => (mkStore (objects s') (scrapers s') None (log s'), inr tt)
        | (s', inl reason) =>
            (mkStore (objects s') (scrapers s') (Some reason) (log s'), inl reason)
        end
    end.

Definition setConcurrency (endpoint : ref) (serviceName : string) (concurrency : Z)
  : M unit :=
  catch
    (Executor_run
       (service <- issue (run_getService serviceName)
                     (fun h => w_run_getService w h serviceName) ;;
        if match containerConcurrency service with
           | Some c => c =? concurrency
           | None => false
           end
        then ret tt
        else
          let service := delete_status service in
          let service := delete_template_name service in
          let service := set_containerConcurrency concurrency service in
          issue (run_replaceService serviceName service)
            (fun h => w_run_replaceService w h serviceName service)))
    (rethrowAs endpoint op_set_concurrency).

Definition upsertScheduleV1 (endpoint : ref) : M unit :=
  e <- deref endpoint ;;
  let job := scheduler_jobFromEndpoint imp e (appEngineLocation this) in
  catch
    (Executor_run (issue (scheduler_createOrReplaceJob job)
                     (fun h => w_scheduler_createOrReplaceJob w h job)))
    (rethrowAs endpoint op_upsert_schedule).

Definition upsertScheduleV2 (endpoint : ref) : M unit :=
  throw (DeploymentError endpoint op_upsert_schedule (JsError "Not implemented")).

Definition upsertTaskQueue (endpoint : ref) : M unit :=
  e <- deref endpoint ;;
  let queue := cloudtasks_queueFromEndpoint imp e in
  catch
    (Executor_run (issue (cloudtasks_upsertQueue queue)
                     (fun h => w_cloudtasks_upsertQueue w h queue)))
    (rethrowAs endpoint op_upsert_task_queue) ;;
  e <- deref endpoint ;;
  match taskQueueTrigger_invoker e with
  | Some invoker =>
      catch
        (Executor_run (issue (cloudtasks_setEnqueuer (queue_name queue) invoker)
                         (fun h => w_cloudtasks_setEnqueuer w h (queue_name queue) invoker)))
        (rethrowAs endpoint op_set_invoker)
  | None => ret tt
  end.

Definition registerBlockingTrigger (endpoint : ref) (update : bool) : M unit :=
  triggerQueue_then
    (catch
       (Executor_run
          (e <- deref endpoint ;;
           issue (services_registerTrigger e update)
             (fun h => w_registerTrigger w h e update)))
       (rethrowAs endpoint op_register_blocking_trigger)).

Definition deleteScheduleV1 (endpoint : ref) : M unit :=
  e <- deref endpoint ;;
  let job := scheduler_jobFromEndpoint imp e (appEngineLocation this) in
  catch
    (Executor_run (issue (scheduler_deleteJob (job_name job))
                     (fun h => w_scheduler_deleteJob w h (job_name job))))
    (rethrowAs endpoint op_delete_schedule) ;;
  catch
    (Executor_run (issue (pubsub_deleteTopic (job_topicName job))
                     (fun h => w_pubsub_deleteTopic w h (job_topicName job))))
    (rethrowAs endpoint op_delete_topic).

Definition deleteScheduleV2 (endpoint : ref) : M unit :=
  throw (DeploymentError endpoint op_delete_schedule (JsError "Not implemented")).

Definition disableTaskQueue (endpoint : ref) : M unit :=
  e <- deref endpoint ;;
  let name := cloudtasks_queueNameForEndpoint imp e in
  catch
    (Executor_run (issue (cloudtasks_updateQueue name "DISABLED")
                     (fun h => w_cloudtasks_updateQueue w h name "DISABLED")))
    (rethrowAs endpoint op_disable_task_queue).

Definition unregisterBlockingTrigger (endpoint : ref) : M unit :=
  triggerQueue_then
    (catch
       (Executor_run
          (e <- deref endpoint ;;
           issue (services_unregisterTrigger e) (fun h => w_unregisterTrigger w h e)))
       (rethrowAs endpoint op_unregister_blocking_trigger)).

(** Wiring of the triggers that the functions API does not own. *)
Definition setTrigger (endpoint : ref) (update : bool) : M unit :=
  e <- deref endpoint ;;
  match ep_trigger e with
  | ScheduleTriggered _ =>
      match ep_platform e with
      | gcfv1 => upsertScheduleV1 endpoint
      | gcfv2 => upsertScheduleV2 endpoint
      end
  | TaskQueueTriggered _ => upsertTaskQueue endpoint
  | BlockingTriggered _ => registerBlockingTrigger endpoint update
  | _ => ret tt
  end.

Definition deleteTrigger (endpoint : ref) : M unit :=
  e <- deref endpoint ;;
  match ep_trigger e with
  | ScheduleTriggered _ =>
      match ep_platform e with
      | gcfv1 => deleteScheduleV1 endpoint
      | gcfv2 => deleteScheduleV2 endpoint
      end
  | TaskQueueTriggered _ => disableTaskQueue endpoint
  | BlockingTriggered _ => unregisterBlockingTrigger endpoint
  | _ => ret tt
  end.

(** The inline invoker assignment of the two create paths; [setInvoker] is
    [gcf.setInvokerCreate] on the function name for v1 and
    [run.setInvokerCreate] on the service name for v2. *)
Definition setInvokerOnCreate (endpoint : ref) (setInvoker : list string -> M unit)
  : M unit :=
  e <- deref endpoint ;;
  match ep_trigger e with
  | HttpsTriggered httpsInvoker =>
      let invoker := or_else httpsInvoker ["public"] in
      if negb (includes invoker "private")
      then catch (Executor_run (setInvoker invoker)) (rethrowAs endpoint op_set_invoker)
      else ret tt
  | CallableTriggered =>
      catch (Executor_run (setInvoker ["public"])) (rethrowAs endpoint op_set_invoker)
  | TaskQueueTriggered taskQueueInvoker =>
      match taskQueueInvoker with
      | Some invoker =>
          if negb (includes invoker "private")
          then catch (Executor_run (setInvoker invoker)) (rethrowAs endpoint op_set_invoker)
          else ret tt
      | None => ret tt
      end
  | BlockingTriggered eventType =>
      if includes (AUTH_BLOCKING_EVENTS imp) eventType
      then catch (Executor_run (setInvoker ["public"])) (rethrowAs endpoint op_set_invoker)
      else ret tt
  | _ => ret tt
  end.

Definition createV1Function (endpoint : ref) (scraper : scraper_ref) : M unit :=
  match truthy_string (sourceUrl this) with
  | None => throw (JsError "Precondition failed")
  | Some sourceUrl =>
      e <- deref endpoint ;;
      let apiFunction := gcf_functionFromEndpoint imp e sourceUrl in
      let apiFunction :=
        match cf_httpsTrigger apiFunction with
        | Some _ => set_securityLevel "SECURE_ALWAYS" apiFunction
        | None => apiFunction
        end in
      sourceToken <- tokenPromise scraper ;;
      let apiFunction := set_sourceToken sourceToken apiFunction in
      resultFunction <-
        catch
          (Executor_run
             (op <- issue (gcf_createFunction apiFunction)
                      (fun h => w_gcf_createFunction w h apiFunction) ;;
              e <- deref endpoint ;;
              pollOperation_gcf
                (gcfV1PollerOptions
                   ("create-" ++ ep_region e ++ "-" ++ ep_id e)%string
                   (op_name op) (Some scraper))))
          (rethrowAs endpoint op_create) ;;
      assign endpoint
        (set_uri match resultFunction with
                 | Some f => match cf_httpsTrigger f with
                             | Some t => url t
                             | None => None
                             end
                 | None => None
                 end) ;;
      e <- deref endpoint ;;
      setInvokerOnCreate endpoint
        (fun invoker =>
           issue (gcf_setInvokerCreate (ep_project e) (backend_functionName imp e) invoker)
             (fun h => w_gcf_setInvokerCreate w h (ep_project e)
                         (backend_functionName imp e) invoker))
  end.

Definition createV2Function (endpoint : ref) : M unit :=
  match storage this with
  | None => throw (JsError "Precondition failed")
  | Some storage =>
      e <- deref endpoint ;;
      let apiFunction := gcfV2_functionFromEndpoint imp e (lookup storage (ep_region e)) in
      let topic :=
        match v2_eventTrigger apiFunction with
        | Some eventTrigger => pubsubTopic eventTrigger
        | None => None
        end in
      match truthy_string topic with
      | Some topic =>
          catch
            (Executor_run
               (catch
                  (issue (pubsub_createTopic topic) (fun h => w_pubsub_createTopic w h topic))
                  (fun err =>
                     match status err with
                     | Some 409 => ret tt
                     | _ => throw (FirebaseError "Unexpected error creating Pub/Sub topic" err)
                     end)))
            (rethrowAs endpoint op_create_topic)
      | None => ret tt
      end ;;
      resultFunction <-
        catch
          (Executor_run
             (op <- issue (gcfV2_createFunction apiFunction)
                      (fun h => w_gcfV2_createFunction w h apiFunction) ;;
              e <- deref endpoint ;;
              pollOperation_gcfV2
                (gcfV2PollerOptions
                   ("create-" ++ ep_region e ++ "-" ++ ep_id e)%string (op_name op))))
          (rethrowAs endpoint op_create) ;;
      assign endpoint (set_uri (sc_uri (v2_serviceConfig resultFunction))) ;;
      let serviceName := sc_service (v2_serviceConfig resultFunction) in
      e <- deref endpoint ;;
      setInvokerOnCreate endpoint
        (fun invoker =>
           issue (run_setInvokerCreate (ep_project e) serviceName invoker)
             (fun h => w_run_setInvokerCreate w h (ep_project e) serviceName invoker)) ;;
      e <- deref endpoint ;;
      let mem := or_else (truthy_number (ep_availableMemoryMb e)) (DEFAULT_MEMORY imp) in
      if (MIN_MEMORY_FOR_CONCURRENCY imp <=? mem)
         && negb match ep_concurrency e with
                 | Some 1 => true
                 | _ => false
                 end
      then setConcurrency endpoint serviceName
             (or_else (truthy_number (ep_concurrency e)) DEFAULT_GCFV2_CONCURRENCY)
      else ret tt
  end.

(** The invoker that the two update paths assign, if any. *)
Definition invokerOnUpdate (e : Endpoint) : option (list string) :=
  match ep_trigger e with
  | HttpsTriggered invoker => invoker
  | TaskQueueTriggered invoker => invoker
  | BlockingTriggered eventType =>
      if includes (AUTH_BLOCKING_EVENTS imp) eventType then Some ["public"] else None
  | _ => None
  end.

Definition updateV1Function (endpoint : ref) (scraper : scraper_ref) : M unit :=
  match truthy_string (sourceUrl this) with
  | None => throw (JsError "Precondition failed")
  | Some sourceUrl =>
      e <- deref endpoint ;;
      let apiFunction := gcf_functionFromEndpoint imp e sourceUrl in
      sourceToken <- tokenPromise scraper ;;
      let apiFunction := set_sourceToken sourceToken apiFunction in
      resultFunction <-
        catch
          (Executor_run
             (op <- issue (gcf_updateFunction apiFunction)
                      (fun h => w_gcf_updateFunction w h apiFunction) ;;
              e <- deref endpoint ;;
              pollOperation_gcf
                (gcfV1PollerOptions
                   ("update-" ++ ep_region e ++ "-" ++ ep_id e)%string
                   (op_name op) (Some scraper))))
          (rethrowAs endpoint op_update) ;;
      assign endpoint
        (set_uri match resultFunction with
                 | Some f => match cf_httpsTrigger f with
                             | Some t => url t
                             | None => None
                             end
                 | None => None
                 end) ;;
      e <- deref endpoint ;;
      match invokerOnUpdate e with
      | Some invoker =>
          catch
            (Executor_run
               (issue (gcf_setInvokerUpdate (ep_project e) (backend_functionName imp e) invoker)
                  (fun h => w_gcf_setInvokerUpdate w h (ep_project e)
                              (backend_functionName imp e) invoker)))
            (rethrowAs endpoint op_set_invoker)
      | None => ret tt
      end
  end.

Definition updateV2Function (endpoint : ref) : M unit :=
  match storage this with
  | None => throw (JsError "Precondition failed")
  | Some storage =>
      e <- deref endpoint ;;
      let apiFunction := gcfV2_functionFromEndpoint imp e (lookup storage (ep_region e)) in
      let apiFunction :=
        match truthy_string match v2_eventTrigger apiFunction with
                            | Some eventTrigger => pubsubTopic eventTrigger
                            | None => None
                            end with
        | Some _ => delete_pubsubTopic apiFunction
        | None => apiFunction
        end in
      resultFunction <-
        catch
          (Executor_run
             (op <- issue (gcfV2_updateFunction apiFunction)
                      (fun h => w_gcfV2_updateFunction w h apiFunction) ;;
              e <- deref endpoint ;;
              pollOperation_gcfV2
                (gcfV2PollerOptions
                   ("update-" ++ ep_region e ++ "-" ++ ep_id e)%string (op_name op))))
          (rethrowAs endpoint op_update) ;;
      assign endpoint (set_uri (sc_uri (v2_serviceConfig resultFunction))) ;;
      let serviceName := sc_service (v2_serviceConfig resultFunction) in
      e <- deref endpoint ;;
      match invokerOnUpdate e with
      | Some invoker =>
          catch
            (Executor_run
               (issue (run_setInvokerUpdate (ep_project e) serviceName invoker)
                  (fun h => w_run_setInvokerUpdate w h (ep_project e) serviceName invoker)))
            (rethrowAs endpoint op_set_invoker)
      | None => ret tt
      end ;;
      e <- deref endpoint ;;
      match truthy_number (ep_concurrency e) with
      | Some concurrency => setConcurrency endpoint serviceName concurrency
      | None => ret tt
      end
  end.

Definition deleteV1Function (endpoint : ref) : M unit :=
  e <- deref endpoint ;;
  let fnName := backend_functionName imp e in
  catch
    (Executor_run
       (op <- issue (gcf_deleteFunction fnName) (fun h => w_gcf_deleteFunction w h fnName) ;;
        e <- deref endpoint ;;
        pollOperation_void
          (gcfV1PollerOptions ("delete-" ++ ep_region e ++ "-" ++ ep_id e)%string
             (op_name op) None)))
    (rethrowAs endpoint op_delete).

Definition deleteV2Function (endpoint : ref) : M unit :=
  e <- deref endpoint ;;
  let fnName := backend_functionName imp e in
  catch
    (Executor_run
       (op <- issue (gcfV2_deleteFunction fnName)
                (fun h => w_gcfV2_deleteFunction w h fnName) ;;
        e <- deref endpoint ;;
        pollOperation_void
          (gcfV2PollerOptions ("delete-" ++ ep_region e ++ "-" ++ ep_id e)%string
             (op_name op))))
    (rethrowAs endpoint op_delete).

Definition createEndpoint (endpoint : ref) (scraper : scraper_ref) : M unit :=
  assign endpoint
    (fun e => set_labels (spread (ep_labels e) (deploymentTool_labels imp)) e) ;;
  e <- deref endpoint ;;
  match ep_platform e with
  | gcfv1 => createV1Function endpoint scraper
  | gcfv2 => createV2Function endpoint
  end ;;
  setTrigger endpoint false.

Definition deleteEndpoint (endpoint : ref) : M unit :=
  deleteTrigger endpoint ;;
  e <- deref endpoint ;;
  match ep_platform e with
  | gcfv1 => deleteV1Function endpoint
  | gcfv2 => deleteV2Function endpoint
  end.

Definition updateEndpoint (update : EndpointUpdate) (scraper : scraper_ref) : M unit :=
  assign (upd_endpoint update)
    (fun e => set_labels (spread (ep_labels e) (deploymentTool_labels imp)) e) ;;
  match upd_deleteAndRecreate update with
  | Some old =>
      deleteEndpoint old ;;
      createEndpoint (upd_endpoint update) scraper
  | None =>
      e <- deref (upd_endpoint update) ;;
      match ep_platform e with
      | gcfv1 => updateV1Function (upd_endpoint update) scraper
      | gcfv2 => updateV2Function (upd_endpoint update)
      end ;;
      setTrigger (upd_endpoint update) true
  end.

(** The [handle] closure of [applyChangeset]: time [fn], keep its failure in
    the result, never throw.  The result that it pushes on [deployResults] is
    its value here.  ([logOpStart], [logOpSuccess] and the logger only print:
    they are left out of every method.) *)
Definition handle (op : OperationType) (endpoint : ref) (fn : M unit) : M DeployResult :=
  timer <- Timer_new w ;;
  error <- (fun s => match fn s with
                     | (s', inr _) => (s', inr None)
                     | (s', inl err) => (s', inr (Some err))
                     end) ;;
  durationMs <- Timer_stop w timer ;;
  ret (mkDeployResult endpoint durationMs error).

(** The values of the promises that were fulfilled, in order. *)
Definition fulfilledValues {A : Type} (l : list (PromiseResult A)) : list A :=
  flat_map (fun r => match r with
                     | fulfilled v => [v]
                     | rejected _ => []
                     end) l.

Definition hasError (r : DeployResult) : bool :=
  match dr_error r with
  | Some _ => true
  | None => false
  end.

(** The promises of the two [for] loops over creates and updates. *)
Definition upserts (changes : Changeset) (scraper : scraper_ref) : list (M DeployResult) :=
  map (fun endpoint => handle op_create endpoint (createEndpoint endpoint scraper))
    (endpointsToCreate changes)
  ++ map (fun update => handle op_update (upd_endpoint update) (updateEndpoint update scraper))
       (endpointsToUpdate changes).

(** The promises of the [for] loop over deletes. *)
Definition deletes (changes : Changeset) : list (M DeployResult) :=
  map (fun endpoint => handle op_delete endpoint (deleteEndpoint endpoint))
    (endpointsToDelete changes).

(** The result synthesized for a delete that is skipped. *)
Definition aborted (endpoint : ref) : DeployResult :=
  mkDeployResult endpoint 0 (Some (AbortedDeploymentError endpoint)).

(** [deployResults] holds what the [handle]s have pushed when [allSettled]
    returns: the values of the settled promises. *)
Definition applyChangeset (changes : Changeset) : M (list DeployResult) :=
  scraper <- SourceTokenScraper_new ;;
  settled <- allSettled (upserts changes scraper) ;;
  let deployResults := fulfilledValues settled in
  if existsb hasError deployResults
  then ret (deployResults ++ map aborted (endpointsToDelete changes))
  else
    settled <- allSettled (deletes changes) ;;
    ret (deployResults ++ fulfilledValues settled).

(** Each changeset pushes its results on [summary.results] when it returns;
    the reasons of the rejected ones ([errs]) are only logged. *)
Definition applyPlan (plan : DeploymentPlan) : M Summary :=
  timer <- Timer_new w ;;
  let deployChangesets := map applyChangeset (Object_values plan) in
  promiseResults <- allSettled deployChangesets ;;
  let results := List.concat (fulfilledValues promiseResults) in
  totalTime <- Timer_stop w timer ;;
  ret (mkSummary totalTime results).

End Fabricator.

(** * The helpers of the extensions commands *)

Module ExtensionsHelper.

(** [FirebaseError] with its message. *)
Inductive Error : Type :=
| FirebaseError (message : string).

Section Params.

(** The values of the params file and the defaults of the spec are typed
    [any]: a type [V] of values with their JavaScript truthiness. *)
Variable V : Type.
Variable truthy : V -> bool.

(** A JavaScript object used as a record of values. *)
Definition Obj : Type := list (string * V).

(** One entry of [paramSpec]: [env.param] and [env.default]. *)
Record ParamSpec : Type := mkParamSpec {
  param : string;
  default : option V
}.

(** Truthiness of [obj[key]] and of [env.default]: [undefined] is falsy. *)
Definition isTruthy (o : option V) : bool :=
  match o with
  | Some v => truthy v
  | None => false
  end.

(** [obj[key] = v]: the value of an existing key is replaced in place, a new
    key is added last. *)
Fixpoint set (obj : Obj) (key : string) (v : V) : Obj :=
  match obj with
  | [] => [(key, v)]
  | (k, x) :: tl => if String.eqb k key then (k, v) :: tl else (k, x) :: set tl key v
  end.

(** [populateDefaultParams(paramVars, paramSpec)].  [newParams] is the object
    [paramVars] itself, written in place: the result is that object as the
    call leaves it, with the error thrown, if any; the call returns the
    object when it does not throw. *)
Fixpoint populateDefaultParams (paramVars : Obj) (paramSpec : list ParamSpec)
  : Obj * option Error :=
  match paramSpec with
  | [] => (paramVars, None)
  | env :: rest =>
      if negb (isTruthy (lookup paramVars (param env)))
      then
        match default env with
        | Some d =>
            if truthy d
            then populateDefaultParams (set paramVars (param env) d) rest
            else
              (paramVars,
               Some (FirebaseError
                       (param env ++ " has not been set in the given params file"
                        ++ " and there is no default available. Please set this variable before installing again.")%string))
        | None =>
            (paramVars,
             Some (FirebaseError
                     (param env ++ " has not been set in the given params file"
                      ++ " and there is no default available. Please set this variable before installing again.")%string))
        end
      else populateDefaultParams paramVars rest
  end.

End Params.

Arguments mkParamSpec {V} param default.
Arguments param {V} p.
Arguments default {V} p.
Arguments isTruthy {V} truthy o.
Arguments set {V} obj key v.
Arguments populateDefaultParams {V} truthy paramVars paramSpec.

(** ** [promptForValidInstanceId] *)

Definition lowercase (c : ascii) : bool :=
  (nat_of_ascii "a" <=? nat_of_ascii c)%nat && (nat_of_ascii c <=? nat_of_ascii "z")%nat.

Definition digit (c : ascii) : bool :=
  (nat_of_ascii "0" <=? nat_of_ascii c)%nat && (nat_of_ascii c <=? nat_of_ascii "9")%nat.

Definition dash (c : ascii) : bool := Ascii.eqb c "-".

(** [[a-z\d\-]*[a-z\d]$] on the rest of the input. *)
Fixpoint instanceIdRegex_rest (s : string) : bool :=
  match s with
  | EmptyString => false
  | String c EmptyString => lowercase c || digit c
  | String c rest => (lowercase c || digit c || dash c) && instanceIdRegex_rest rest
  end.

(** [/^[a-z][a-z\d\-]*[a-z\d]$/.test(s)] *)
Definition instanceIdRegex_test (s : string) : bool :=
  match s with
  | EmptyString => false
  | String c rest => lowercase c && instanceIdRegex_rest rest
  end.

(** [promptForValidInstanceId(instanceId)], run on the answers that
    [promptOnce] gives to the successive prompts ([instanceId] is only the
    default that the prompt shows): the answer that ends the loop, or [None]
    when the loop is still asking after these answers.  An answer is the
    string of its characters; the expression admits ASCII letters, digits
    and dashes only, so an answer with any other character is refused
    whatever its length, and for the others [length] counts the
    characters. *)
Fixpoint promptForValidInstanceId (answers : list string) : option string :=
  match answers with
  | [] => None
  | newInstanceId :: later =>
      if (String.length newInstanceId <=? 6)%nat || (45 <=? String.length newInstanceId)%nat
      then promptForValidInstanceId later
      else if negb (instanceIdRegex_test newInstanceId)
           then promptForValidInstanceId later
           else Some newInstanceId
  end.

End ExtensionsHelper.

(** ** Concrete collaborators and plans, on which the fabricator is run *)

Module Scenario.

Definition functionName (e : Endpoint) : string :=
  ("projects/" ++ ep_project e ++ "/locations/" ++ ep_region e
   ++ "/functions/" ++ ep_id e)%string.

Definition imports : Imports :=
  mkImports "https://cloudfunctions.googleapis.com" "https://cloudfunctions.googleapis.com"
    "v1" "v2alpha" 256 2048
    ["providers/cloud.auth/eventTypes/user.beforeCreate";
     "providers/cloud.auth/eventTypes/user.beforeSignIn"]
    [("deployment-tool", "cli-firebase")]
    functionName
    (fun e sourceUrl =>
       mkCloudFunction (functionName e) sourceUrl
         match ep_trigger e with
         | HttpsTriggered _ => Some (mkHttpsTrigger None None)
         | CallableTriggered => Some (mkHttpsTrigger None None)
         | _ => None
         end None)
    (fun e source =>
       mkCloudFunctionV2 (functionName e) source
         match ep_trigger e with
         | EventTriggered eventType => Some (mkEventTrigger eventType (Some "topic"))
         | _ => None
         end (mkServiceConfig None ""))
    (fun e location => mkJob ("job-" ++ ep_id e)%string ("topic-" ++ ep_id e)%string)
    (fun e => mkQueue (functionName e))
    functionName.

Definition endpoint (id : string) (platform : Platform) (trigger : Triggered)
  (memory concurrency : option Z) : Endpoint :=
  mkEndpoint id "us-central1" "demo" platform trigger "nodejs16" memory concurrency [] None.

(** The endpoint objects of the scenarios, by reference. *)
Definition heap (r : ref) : Endpoint :=
  nth r [ endpoint "a" gcfv1 (HttpsTriggered None) None None;
          endpoint "b" gcfv1 (HttpsTriggered None) None None;
          endpoint "d" gcfv1 (HttpsTriggered None) None None;
          endpoint "before-create" gcfv1
            (BlockingTriggered "providers/cloud.auth/eventTypes/user.beforeCreate")
            None None;
          endpoint "before-sign-in" gcfv1
            (BlockingTriggered "providers/cloud.auth/eventTypes/user.beforeSignIn")
            None None;
          endpoint "wide" gcfv2 (HttpsTriggered None) (Some 4096) None;
          endpoint "narrow" gcfv2 CallableTriggered (Some 256) (Some 50);
          endpoint "queue" gcfv1 (TaskQueueTriggered None) None None;
          endpoint "single" gcfv2 (HttpsTriggered None) (Some 4096) (Some 1) ]
    (endpoint "" gcfv1 CallableTriggered None None).

Definition args : FabricatorArgs :=
  mkFabricatorArgs "us-central1" (Some "https://storage/source.zip")
    (Some [("us-central1", mkStorageSource "bucket" "source.zip")]).

(** A fabricator built without the source URL of v1 functions. *)
Definition args_without_sourceUrl : FabricatorArgs :=
  mkFabricatorArgs "us-central1" None
    (Some [("us-central1", mkStorageSource "bucket" "source.zip")]).

(** Every collaborator succeeds; a v1 build reports the source token
    ["token-1"] on its poll; the live services run with concurrency 1. *)
Definition calm : World :=
  mkWorld
    (fun h => Z.of_nat (List.length h))
    (fun _ f => inr (mkOperation ("operations/" ++ cf_name f)%string))
    (fun _ f => inr (mkOperation ("operations/" ++ cf_name f)%string))
    (fun _ name => inr (mkOperation ("operations/" ++ name)%string))
    (fun _ _ _ _ => inr tt)
    (fun _ _ _ _ => inr tt)
    (fun _ f => inr (mkOperation ("operations/" ++ v2_name f)%string))
    (fun _ f => inr (mkOperation ("operations/" ++ v2_name f)%string))
    (fun _ name => inr (mkOperation ("operations/" ++ name)%string))
    (fun _ options =>
       ([mkOperationTick None false; mkOperationTick (Some "token-1") true],
        inr (Some (mkCloudFunction (operationResourceName options) ""
                     (Some (mkHttpsTrigger (Some "SECURE_ALWAYS")
                              (Some "https://demo.example/fn"))) None))))
    (fun _ options =>
       inr (mkCloudFunctionV2 (operationResourceName options) None None
              (mkServiceConfig (Some "https://demo.run.app") "services/demo")))
    (fun _ _ => inr tt)
    (fun _ _ => inr tt)
    (fun _ _ => inr tt)
    (fun _ _ _ _ => inr tt)
    (fun _ _ _ _ => inr tt)
    (fun _ _ => inr (mkService (Some "Ready") (Some "demo-00001") (Some 1)))
    (fun _ _ _ => inr tt)
    (fun _ _ => inr tt)
    (fun _ _ => inr tt)
    (fun _ _ => inr tt)
    (fun _ _ _ => inr tt)
    (fun _ _ _ => inr tt)
    (fun _ _ _ => inr tt)
    (fun _ _ => inr tt).


(** As [calm], but the identity platform rejects the registration of the
    ["before-create"] trigger. *)
Definition before_create_fails : World :=
  mkWorld (clock calm)
    (w_gcf_createFunction calm)
    (w_gcf_updateFunction calm) (w_gcf_deleteFunction calm)
    (w_gcf_setInvokerCreate calm) (w_gcf_setInvokerUpdate calm)
    (w_gcfV2_createFunction calm) (w_gcfV2_updateFunction calm)
    (w_gcfV2_deleteFunction calm) (w_pollOperation_gcf calm)
    (w_pollOperation_gcfV2 calm) (w_pollOperation_void calm)
    (w_pubsub_createTopic calm) (w_pubsub_deleteTopic calm)
    (w_run_setInvokerCreate calm) (w_run_setInvokerUpdate calm)
    (w_run_getService calm) (w_run_replaceService calm)
    (w_scheduler_createOrReplaceJob calm) (w_scheduler_deleteJob calm)
    (w_cloudtasks_upsertQueue calm) (w_cloudtasks_setEnqueuer calm)
    (w_cloudtasks_updateQueue calm)
    (fun h e update =>
       if String.eqb (ep_id e) "before-create"
       then inl (HttpError 503 "Service unavailable")
       else inr tt)
    (w_unregisterTrigger calm).


(** Two changesets, each creating one blocking function. *)
Definition two_regions : DeploymentPlan :=
  [("us-central1", mkChangeset [3%nat] [] []);
   ("europe-west1", mkChangeset [4%nat] [] [])].

(** One changeset creating the v1 function ["a"]. *)
Definition create_a : DeploymentPlan := [("us-central1", mkChangeset [0%nat] [] [])].

End Scenario.

(** Further endpoint objects and collaborators, on which single operations
    are run. *)
Module Cases.

Definition heap (r : ref) : Endpoint :=
  nth r [ Scenario.endpoint "restricted" gcfv1 (HttpsTriggered (Some ["private"])) None None;
          Scenario.endpoint "nightly" gcfv2 (ScheduleTriggered "every 24 hours") None None;
          Scenario.endpoint "on-message" gcfv2 (EventTriggered "google.pubsub.topic.publish")
            None None ]
    (Scenario.endpoint "" gcfv1 CallableTriggered None None).

(** As [Scenario.calm], but every Pub/Sub topic exists already. *)
Definition topic_exists : World :=
  mkWorld (clock Scenario.calm)
    (w_gcf_createFunction Scenario.calm)
    (w_gcf_updateFunction Scenario.calm) (w_gcf_deleteFunction Scenario.calm)
    (w_gcf_setInvokerCreate Scenario.calm) (w_gcf_setInvokerUpdate Scenario.calm)
    (w_gcfV2_createFunction Scenario.calm) (w_gcfV2_updateFunction Scenario.calm)
    (w_gcfV2_deleteFunction Scenario.calm) (w_pollOperation_gcf Scenario.calm)
    (w_pollOperation_gcfV2 Scenario.calm) (w_pollOperation_void Scenario.calm)
    (fun _ _ => inl (HttpError 409 "ALREADY_EXISTS"))
    (w_pubsub_deleteTopic Scenario.calm)
    (w_run_setInvokerCreate Scenario.calm) (w_run_setInvokerUpdate Scenario.calm)
    (w_run_getService Scenario.calm) (w_run_replaceService Scenario.calm)
    (w_scheduler_createOrReplaceJob Scenario.calm) (w_scheduler_deleteJob Scenario.calm)
    (w_cloudtasks_upsertQueue Scenario.calm) (w_cloudtasks_setEnqueuer Scenario.calm)
    (w_cloudtasks_updateQueue Scenario.calm)
    (w_registerTrigger Scenario.calm) (w_unregisterTrigger Scenario.calm).

(** A params file that sets [LOCATION], and a spec of two params, of which
    [COLLECTION] has a default. *)
Definition paramVars : list (string * string) := [("LOCATION", "us-central1")].

Definition paramSpec : list (ExtensionsHelper.ParamSpec string) :=
  [ExtensionsHelper.mkParamSpec "LOCATION" None;
   ExtensionsHelper.mkParamSpec "COLLECTION" (Some "users")].


End Cases.

(** * Properties *)

(** ** Vocabulary of the statements *)

(** The calls issued between two stores of one run. *)
Definition issued (s s' : Store) : list Call := skipn (List.length (log s)) (log s').




(** The invariant of the store: [Is] holds of the scrapers, and the trigger
    queue is rejected only with a reason satisfying [Iq]. *)
Definition inv (Is : list ScraperState -> Prop) (Iq : Err -> Prop) (s : Store) : Prop :=
  Is (scrapers s) /\ forall e, triggerQueue s = Some e -> Iq e.

(** [respects Is Iq P m E Q]: run from a store that satisfies the invariant,
    [m] keeps the invariant, issues only calls that satisfy [P], throws only
    errors that satisfy [E] and returns only values that satisfy [Q]. *)
Definition respects (Is : list ScraperState -> Prop) (Iq : Err -> Prop) (P : Call -> Prop)
  {A : Type} (m : M A) (E : Err -> Prop) (Q : A -> Prop) : Prop :=
  forall s, inv Is Iq s ->
    inv Is Iq (fst (m s))
    /\ (exists new, log (fst (m s)) = log s ++ new /\ Forall P new)
    /\ match snd (m s) with
       | inl e => E e
       | inr a => Q a
       end.

Definition isDeploymentError (e : Err) : Prop :=
  match e with
  | DeploymentError _ _ _ => True
  | _ => False
  end.

Definition isAbortedDeploymentError (e : Err) : Prop :=
  match e with
  | AbortedDeploymentError _ => True
  | _ => False
  end.

(** The store of a fabricator: its trigger queue is fulfilled, or rejected by
    a registration that failed. *)
Definition queue_inv (s : Store) : Prop :=
  forall e, triggerQueue s = Some e -> isDeploymentError e.

(** What an endpoint operation may throw: a [DeploymentError], or the plain
    error of the precondition when a source locator is missing. *)
Definition thrown (this : FabricatorArgs) (e : Err) : Prop :=
  isDeploymentError e
  \/ (e = JsError "Precondition failed"
      /\ (truthy_string (sourceUrl this) = None \/ storage this = None)).

(** The error of a result: thrown by the operation on its endpoint, or the
    synthetic error of a skipped delete. *)
Definition recorded (this : FabricatorArgs) (d : DeployResult) : Prop :=
  forall e, dr_error d = Some e ->
    thrown this e \/ e = AbortedDeploymentError (dr_endpoint d).

(** The scrapers after the hook of [scraper] has seen [ticks]. *)
Definition fed (scraper : scraper_ref) (ticks : list OperationTick) (l : list ScraperState)
  : list ScraperState :=
  fold_left
    (fun l tick =>
       match nth scraper l None, metadata_sourceToken tick with
       | None, Some token => update_nth scraper (Some token) l
       | _, _ => l
       end) ticks l.

(** The scrapers after a poll with [options] issued from [s]. *)
Definition polled_scrapers (w : World) (options : PollerOptions) (s : Store)
  : list ScraperState :=
  match onPoll options with
  | Some scraper => fed scraper (fst (w_pollOperation_gcf w (log s) options)) (scrapers s)
  | None => scrapers s
  end.




(** The invokers that a create assigns, by trigger kind. *)
Definition createInvokers (imp : Imports) (e : Endpoint) : list (list string) :=
  match ep_trigger e with
  | HttpsTriggered invoker =>
      if includes (or_else invoker ["public"]) "private" then []
      else [or_else invoker ["public"]]
  | CallableTriggered => [["public"]]
  | TaskQueueTriggered (Some invoker) =>
      if includes invoker "private" then [] else [invoker]
  | BlockingTriggered eventType =>
      if includes (AUTH_BLOCKING_EVENTS imp) eventType then [["public"]] else []
  | _ => []
  end.

(** The calls of [setConcurrency] issued at history [h]. *)
Definition concurrencyCalls (w : World) (h : History) (serviceName : string)
  (concurrency : Z) : list Call :=
  run_getService serviceName
  :: match w_run_getService w h serviceName with
     | inr service =>
         if match containerConcurrency service with
            | Some c => c =? concurrency
            | None => false
            end
         then []
         else [run_replaceService serviceName
                 (set_containerConcurrency concurrency
                    (delete_template_name (delete_status service)))]
     | inl _ => []
     end.

(** The invoker lists of the set-invoker calls of a create, in order. *)
Definition invokersSet (calls : list Call) : list (list string) :=
  flat_map (fun c => match c with
                     | gcf_setInvokerCreate _ _ invoker => [invoker]
                     | run_setInvokerCreate _ _ invoker => [invoker]
                     | _ => []
                     end) calls.

(** The services whose descriptor is fetched, in order. *)
Definition servicesFetched (calls : list Call) : list string :=
  flat_map (fun c => match c with
                     | run_getService name => [name]
                     | _ => []
                     end) calls.

(** The concurrency of the service descriptors that are written, in order. *)
Definition concurrencyWritten (calls : list Call) : list (option Z) :=
  flat_map (fun c => match c with
                     | run_replaceService _ service => [containerConcurrency service]
                     | _ => []
                     end) calls.

(** The condition of the create path for setting the concurrency. *)
Definition memoryAllowsConcurrency (imp : Imports) (e : Endpoint) : bool :=
  (MIN_MEMORY_FOR_CONCURRENCY imp
   <=? or_else (truthy_number (ep_availableMemoryMb e)) (DEFAULT_MEMORY imp))
  && negb match ep_concurrency e with
          | Some 1 => true
          | _ => false
          end.

(** The function resource exists: the create went through, or failed only
    at the invoker or at the concurrency. *)
Definition built (endpoint : ref) (r : Err + unit) : Prop :=
  r = inr tt
  \/ exists cause,
       r = inl (DeploymentError endpoint op_set_invoker cause)
       \/ r = inl (DeploymentError endpoint op_set_concurrency cause).

(** ** Vocabulary of the further properties *)

(** The options of the polls of the fabricator. *)
Definition pollPolicy (imp : Imports) (c : Call) : Prop :=
  match c with
  | poller_pollOperation options =>
      masterTimeout options = 1500000
      /\ maxBackoff options = 10000
      /\ ((apiOrigin options = functionsOrigin imp
           /\ apiVersion options = gcf_API_VERSION imp)
          \/ (apiOrigin options = functionsV2Origin imp
              /\ apiVersion options = gcfV2_API_VERSION imp))
  | _ => True
  end.

(** A create assigns an invoker list only when it does not include
    ["private"]. *)
Definition publicOrRestricted (c : Call) : Prop :=
  match c with
  | gcf_setInvokerCreate _ _ invoker => includes invoker "private" = false
  | run_setInvokerCreate _ _ invoker => includes invoker "private" = false
  | _ => True
  end.

(** [fn.eventTrigger?.pubsubTopic] *)
Definition topicOf (fn : CloudFunctionV2) : option string :=
  match v2_eventTrigger fn with
  | Some eventTrigger => pubsubTopic eventTrigger
  | None => None
  end.

(** A v2 update submits no Pub/Sub topic. *)
Definition updatesWithoutTopic (c : Call) : Prop :=
  match c with
  | gcfV2_updateFunction fn => truthy_string (topicOf fn) = None
  | _ => True
  end.

(** A service is written back without its status and without the name of
    its revision, and with a concurrency. *)
Definition writesBareService (c : Call) : Prop :=
  match c with
  | run_replaceService _ service =>
      svc_status service = None /\ svc_template_name service = None
      /\ exists concurrency, containerConcurrency service = Some concurrency
  | _ => True
  end.

(** [reaches I Q m]: from objects that satisfy [I], [m] leaves objects that
    satisfy [Q], whether it returns or throws. *)
Definition reaches (I Q : (ref -> Endpoint) -> Prop) {A : Type} (m : M A) : Prop :=
  forall s, I (objects s) -> Q (objects (fst (m s))).

(** [preserves J m]: [m] keeps the invariant [J] of the endpoint objects. *)
Definition preserves (J : (ref -> Endpoint) -> Prop) {A : Type} (m : M A) : Prop :=
  reaches J J m.

(** The objects once [r] has been assigned [e]. *)
Definition updated (objs : ref -> Endpoint) (r : ref) (e : Endpoint) : ref -> Endpoint :=
  fun r' => if Nat.eqb r' r then e else objs r'.

(** The fields of an endpoint that describe what is deployed. *)
Definition sameCore (e e' : Endpoint) : Prop :=
  ep_id e' = ep_id e /\ ep_region e' = ep_region e /\ ep_project e' = ep_project e
  /\ ep_platform e' = ep_platform e /\ ep_trigger e' = ep_trigger e
  /\ ep_runtime e' = ep_runtime e /\ ep_availableMemoryMb e' = ep_availableMemoryMb e
  /\ ep_concurrency e' = ep_concurrency e.

(** The endpoints that a changeset, or a plan, creates or updates. *)
Definition upserted (changes : Changeset) : list ref :=
  endpointsToCreate changes ++ map upd_endpoint (endpointsToUpdate changes).

Definition plan_upserted (plan : DeploymentPlan) : list ref :=
  flat_map upserted (Object_values plan).

(** From [objs0] to [objs], only labels and uri were written, and only of
    the objects in [touched]. *)
Definition framed (touched : list ref) (objs0 objs : ref -> Endpoint) : Prop :=
  forall r, sameCore (objs0 r) (objs r) /\ (In r touched \/ objs r = objs0 r).

(** The labels of the object [r] satisfy [K]. *)
Definition labels_in (K : list (string * string) -> Prop) (r : ref) (objs : ref -> Endpoint)
  : Prop :=
  K (ep_labels (objs r)).

(** The invoker lists of the set-invoker calls of an update, in order. *)
Definition invokersUpdated (calls : list Call) : list (list string) :=
  flat_map (fun c => match c with
                     | gcf_setInvokerUpdate _ _ invoker => [invoker]
                     | run_setInvokerUpdate _ _ invoker => [invoker]
                     | _ => []
                     end) calls.

(** The function is updated: the update went through, or failed only at
    the invoker or at the concurrency. *)
Definition updatedFunction (endpoint : ref) (r : Err + unit) : Prop :=
  r = inr tt
  \/ exists cause,
       r = inl (DeploymentError endpoint op_set_invoker cause)
       \/ r = inl (DeploymentError endpoint op_set_concurrency cause).

(** The names of the functions whose deletion is requested, in order. *)
Definition functionDeletes (calls : list Call) : list string :=
  flat_map (fun c => match c with
                     | gcf_deleteFunction name => [name]
                     | gcfV2_deleteFunction name => [name]
                     | _ => []
                     end) calls.

(** A call that asks for no deletion of a function. *)
Definition keepsFunctions (c : Call) : Prop := functionDeletes [c] = [].

(** [grows m]: [m] only adds to the log of calls. *)
Definition grows {A : Type} (m : M A) : Prop :=
  forall s, exists new, log (fst (m s)) = log s ++ new.

(** Calls of an update in place: nothing is created, deleted or torn down,
    and a blocking trigger is registered as an update. *)
Definition inPlaceCall (c : Call) : Prop :=
  match c with
  | gcf_createFunction _ | gcfV2_createFunction _
  | gcf_deleteFunction _ | gcfV2_deleteFunction _
  | gcf_setInvokerCreate _ _ _ | run_setInvokerCreate _ _ _
  | pubsub_createTopic _ | pubsub_deleteTopic _
  | scheduler_deleteJob _ | cloudtasks_updateQueue _ _
  | services_unregisterTrigger _ => False
  | services_registerTrigger _ update => update = true
  | _ => True
  end.

(** Calls of a delete and recreate: no update call of the functions APIs,
    and a blocking trigger is registered as new. *)
Definition recreateCall (c : Call) : Prop :=
  match c with
  | gcf_updateFunction _ | gcfV2_updateFunction _
  | gcf_setInvokerUpdate _ _ _ | run_setInvokerUpdate _ _ _ => False
  | services_registerTrigger _ update => update = false
  | _ => True
  end.

(** An instance id as the prompt's messages describe it, except for the
    bounds: a lowercase letter, then lowercase letters, digits or dashes,
    then a lowercase letter or a digit; between 7 and 44 characters. *)
Definition validInstanceId (id : string) : Prop :=
  (7 <= String.length id <= 44)%nat
  /\ exists c middle d,
       id = String c (middle ++ String d EmptyString)%string
       /\ ExtensionsHelper.lowercase c = true
       /\ ExtensionsHelper.lowercase d || ExtensionsHelper.digit d = true
       /\ forall x, In x (list_ascii_of_string middle) ->
            ExtensionsHelper.lowercase x || ExtensionsHelper.digit x
            || ExtensionsHelper.dash x = true.

(** The message of the error for a param that has neither value nor default. *)
Definition missingParam (name : string) : ExtensionsHelper.Error :=
  ExtensionsHelper.FirebaseError
    (name ++ " has not been set in the given params file and there is no default available. Please set this variable before installing again.")%string.

(** ** Reasoning on the monad *)

Lemma issued_app : forall s s' new, log s' = log s ++ new -> issued s s' = new.
Proof.
  intros s s' new H. unfold issued. rewrite H.
  rewrite skipn_app, skipn_all, Nat.sub_diag. reflexivity.
Qed.

Lemma bind_inv : forall (A B : Type) (m : M A) (f : A -> M B) s s' r,
  bind m f s = (s', r) ->
  (exists s1 a, m s = (s1, inr a) /\ f a s1 = (s', r))
  \/ (exists e, m s = (s', inl e) /\ r = inl e).
Proof.
  intros A B m f s s' r H. unfold bind in H.
  destruct (m s) as [s1 [e | a]].
  - right. exists e. inversion H; subst. auto.
  - left. exists s1, a. auto.
Qed.

Lemma bind_ok : forall (A B : Type) (m : M A) (f : A -> M B) s s1 a,
  m s = (s1, inr a) -> bind m f s = f a s1.
Proof. intros A B m f s s1 a H. unfold bind. rewrite H. reflexivity. Qed.

Lemma bind_fail : forall (A B : Type) (m : M A) (f : A -> M B) s s1 e,
  m s = (s1, inl e) -> bind m f s = (s1, inl e).
Proof. intros A B m f s s1 e H. unfold bind. rewrite H. reflexivity. Qed.

(** [allSettled] never throws and settles every promise. *)
Lemma allSettled_total : forall (A : Type) (ps : list (M A)) s,
  exists s' l, allSettled ps s = (s', inr l) /\ List.length l = List.length ps.
Proof.
  intros A ps. induction ps as [| p ps IH]; intros s.
  - exists s, []. split; reflexivity.
  - unfold allSettled in *. cbn [mapM].
    destruct (settle p s) as [s1 r1] eqn:E1.
    assert (exists v, r1 = inr v) as [v ->].
    { unfold settle in E1. destruct (p s) as [s0 [e | a]]; inversion E1; eauto. }
    destruct (IH s1) as (s2 & l & E2 & Hlen).
    exists s2, (v :: l). split.
    + erewrite bind_ok by exact E1. erewrite bind_ok by exact E2. reflexivity.
    + cbn. rewrite Hlen. reflexivity.
Qed.

Lemma allSettled_app : forall (A : Type) (ps qs : list (M A)) s s1 l1 s2 l2,
  allSettled ps s = (s1, inr l1) ->
  allSettled qs s1 = (s2, inr l2) ->
  allSettled (ps ++ qs) s = (s2, inr (l1 ++ l2)).
Proof.
  intros A ps. induction ps as [| p ps IH]; intros qs s s1 l1 s2 l2 H1 H2.
  - cbn in H1. inversion H1; subst. exact H2.
  - unfold allSettled in *. cbn [mapM app] in *.
    apply bind_inv in H1 as [(sa & a & Ea & H1) | (e & _ & Habs)]; [| discriminate].
    apply bind_inv in H1 as [(sb & b & Eb & H1) | (e & _ & Habs)]; [| discriminate].
    inversion H1; subst.
    erewrite bind_ok by exact Ea.
    erewrite bind_ok by (eapply IH; eassumption). reflexivity.
Qed.











(** ** A program logic for the methods of the fabricator *)

Section Respects.

Variable Is : list ScraperState -> Prop.
Variable Iq : Err -> Prop.
Variable P : Call -> Prop.

Lemma respects_ret : forall (A : Type) (a : A) E (Q : A -> Prop),
  Q a -> respects Is Iq P (ret a) E Q.
Proof.
  intros A a E Q H s Hs. cbn. repeat split; try apply Hs; auto.
  exists []. rewrite app_nil_r. auto.
Qed.

Lemma respects_throw : forall (A : Type) e (E : Err -> Prop) (Q : A -> Prop),
  E e -> respects Is Iq P (throw e) E Q.
Proof.
  intros A e E Q H s Hs. cbn. repeat split; try apply Hs; auto.
  exists []. rewrite app_nil_r. auto.
Qed.

Lemma respects_bind : forall (A B : Type) (m : M A) (f : A -> M B) E Qa Q,
  respects Is Iq P m E Qa ->
  (forall a, Qa a -> respects Is Iq P (f a) E Q) ->
  respects Is Iq P (bind m f) E Q.
Proof.
  intros A B m f E Qa Q Hm Hf s Hs. unfold bind.
  destruct (Hm s Hs) as (Hi & (new & Hlog & Hnew) & Hr).
  destruct (m s) as [s1 [e | a]]; cbn [fst snd] in *.
  - repeat split; try apply Hi; eauto.
  - destruct (Hf a Hr s1 Hi) as (Hi2 & (new2 & Hlog2 & Hnew2) & Hr2).
    split; [exact Hi2 |]. split; [| exact Hr2].
    exists (new ++ new2). rewrite Hlog2, Hlog, app_assoc. split; [reflexivity |].
    apply Forall_app. auto.
Qed.

Lemma respects_bind_any : forall (A B : Type) (m : M A) (f : A -> M B) E Q,
  respects Is Iq P m E (fun _ => True) ->
  (forall a, respects Is Iq P (f a) E Q) ->
  respects Is Iq P (bind m f) E Q.
Proof. intros. eapply respects_bind; eauto. Qed.

Lemma respects_catch : forall (A : Type) (m : M A) (h : Err -> M A) E' E Q,
  respects Is Iq P m E' Q ->
  (forall e, E' e -> respects Is Iq P (h e) E Q) ->
  respects Is Iq P (catch m h) E Q.
Proof.
  intros A m h E' E Q Hm Hh s Hs. unfold catch.
  destruct (Hm s Hs) as (Hi & (new & Hlog & Hnew) & Hr).
  destruct (m s) as [s1 [e | a]]; cbn [fst snd] in *.
  - destruct (Hh e Hr s1 Hi) as (Hi2 & (new2 & Hlog2 & Hnew2) & Hr2).
    split; [exact Hi2 |]. split; [| exact Hr2].
    exists (new ++ new2). rewrite Hlog2, Hlog, app_assoc. split; [reflexivity |].
    apply Forall_app. auto.
  - repeat split; try apply Hi; eauto.
Qed.

Lemma respects_weaken : forall (A : Type) (m : M A) (E E' : Err -> Prop) (Q Q' : A -> Prop),
  respects Is Iq P m E Q ->
  (forall e, E e -> E' e) ->
  (forall a, Q a -> Q' a) ->
  respects Is Iq P m E' Q'.
Proof.
  intros A m E E' Q Q' Hm HE HQ s Hs.
  destruct (Hm s Hs) as (Hi & Hl & Hr). repeat split; try apply Hi; auto.
  destruct (snd (m s)); auto.
Qed.

Lemma respects_issue : forall (A : Type) c (oracle : History -> Err + A) E,
  P c ->
  (forall h e, oracle h = inl e -> E e) ->
  respects Is Iq P (issue c oracle) E (fun _ => True).
Proof.
  intros A c oracle E Hc HE s Hs. unfold issue. cbn [fst snd].
  split; [exact Hs |]. split.
  - exists [c]. split; [reflexivity |]. constructor; auto.
  - destruct (oracle (log s)) eqn:Ho; eauto.
Qed.

Lemma respects_deref : forall r E, respects Is Iq P (deref r) E (fun _ => True).
Proof.
  intros r E s Hs. cbn. repeat split; try apply Hs.
  exists []. rewrite app_nil_r. auto.
Qed.

Lemma respects_assign : forall r f E, respects Is Iq P (assign r f) E (fun _ => True).
Proof.
  intros r f E s Hs. cbn. repeat split; try apply Hs.
  exists []. rewrite app_nil_r. auto.
Qed.

Lemma respects_tokenPromise : forall scraper E,
  respects Is Iq P (tokenPromise scraper) E (fun _ => True).
Proof.
  intros scraper E s Hs. cbn. repeat split; try apply Hs.
  exists []. rewrite app_nil_r. auto.
Qed.

Lemma respects_timer_new : forall w E, respects Is Iq P (Timer_new w) E (fun _ => True).
Proof.
  intros w E s Hs. cbn. repeat split; try apply Hs.
  exists []. rewrite app_nil_r. auto.
Qed.

Lemma respects_timer_stop : forall w t E, respects Is Iq P (Timer_stop w t) E (fun _ => True).
Proof.
  intros w t E s Hs. cbn. repeat split; try apply Hs.
  exists []. rewrite app_nil_r. auto.
Qed.

Lemma respects_settle : forall (A : Type) (p : M A) E (Q : A -> Prop),
  respects Is Iq P p E Q ->
  respects Is Iq P (settle p) (fun _ => False)
    (fun r => match r with
              | fulfilled a => Q a
              | rejected e => E e
              end).
Proof.
  intros A p E Q Hp s Hs. unfold settle.
  destruct (Hp s Hs) as (Hi & Hl & Hr).
  destruct (p s) as [s1 [e | a]]; cbn [fst snd] in *; auto.
Qed.

Lemma respects_mapM : forall (A B : Type) (f : A -> M B) E (Q : B -> Prop) l,
  (forall a, In a l -> respects Is Iq P (f a) E Q) ->
  respects Is Iq P (mapM f l) E (Forall Q).
Proof.
  intros A B f E Q l. induction l as [| a l IH]; intros H; cbn [mapM].
  - apply respects_ret. constructor.
  - eapply respects_bind; [apply H; left; reflexivity |].
    intros b Hb. eapply respects_bind; [apply IH; intros; apply H; right; assumption |].
    intros bs Hbs. apply respects_ret. constructor; assumption.
Qed.

Lemma respects_allSettled : forall (A : Type) (ps : list (M A)) E (Q : A -> Prop),
  (forall p, In p ps -> respects Is Iq P p E Q) ->
  respects Is Iq P (allSettled ps) (fun _ => False)
    (Forall (fun r => match r with
                      | fulfilled a => Q a
                      | rejected e => E e
                      end)).
Proof.
  intros A ps E Q H. unfold allSettled. apply respects_mapM.
  intros p Hp. apply respects_settle. auto.
Qed.

Lemma respects_forEach : forall (A : Type) (body : A -> M unit) E l,
  (forall a, respects Is Iq P (body a) E (fun _ => True)) ->
  respects Is Iq P (forEach l body) E (fun _ => True).
Proof.
  intros A body E l H. induction l as [| a l IH]; cbn [forEach].
  - apply respects_ret. exact I.
  - eapply respects_bind_any; [apply H | intros _; exact IH].
Qed.

(** The hook of the poller keeps the invariant of the scrapers. *)
Hypothesis Is_poller : forall l scraper token,
  Is l -> nth scraper l None = None -> Is (update_nth scraper (Some token) l).

Lemma respects_scraper_poller : forall scraper tick E,
  respects Is Iq P (scraper_poller scraper tick) E (fun _ => True).
Proof.
  intros scraper tick E s Hs. unfold scraper_poller, scraper_state.
  destruct (nth scraper (scrapers s) None) eqn:Hn;
    [| destruct (metadata_sourceToken tick)]; cbn [fst snd];
    (split; [| split; [exists []; rewrite app_nil_r; auto | exact I]]);
    try exact Hs.
  destruct Hs as [H1 H2]. split; cbn; auto.
Qed.

Lemma respects_pollOperation_gcf : forall w options E,
  (forall e, E e) ->
  P (poller_pollOperation options) ->
  respects Is Iq P (pollOperation_gcf w options) E (fun _ => True).
Proof.
  intros w options E HE HP. unfold pollOperation_gcf.
  eapply respects_bind_any.
  - apply respects_issue; [exact HP | intros; discriminate].
  - intros polled. eapply respects_bind_any.
    + destruct (onPoll options).
      * apply respects_forEach. intros tick. apply respects_scraper_poller.
      * apply respects_ret. exact I.
    + intros _ s Hs. cbn [fst snd]. split; [exact Hs |]. split.
      * exists []. rewrite app_nil_r. auto.
      * destruct (snd polled); auto.
Qed.

(** [then] on the trigger queue: the callback may throw only what the queue
    may be rejected with. *)
Lemma respects_triggerQueue_then : forall callback (E : Err -> Prop),
  (forall e, Iq e -> E e) ->
  respects Is Iq P callback (fun e => Iq e /\ E e) (fun _ => True) ->
  respects Is Iq P (triggerQueue_then callback) E (fun _ => True).
Proof.
  intros callback E HqE Hcb s Hs. unfold triggerQueue_then.
  destruct (triggerQueue s) as [reason |] eqn:Hq.
  - cbn [fst snd]. split; [exact Hs |]. split.
    + exists []. rewrite app_nil_r. auto.
    + apply HqE. apply Hs. exact Hq.
  - destruct (Hcb s Hs) as (Hi & Hl & Hr).
    destruct (callback s) as [s1 [e | u]]; cbn [fst snd] in *.
    + split; [| split; [exact Hl | apply Hr]].
      split; cbn; [apply Hi |]. intros e' He'. inversion He'; subst. apply Hr.
    + split; [| split; [exact Hl | exact I]].
      split; cbn; [apply Hi |]. intros e' He'. discriminate.
Qed.

End Respects.

Create HintDb fab.
#[local] Hint Unfold
  setConcurrency upsertScheduleV1 upsertScheduleV2 upsertTaskQueue registerBlockingTrigger
  deleteScheduleV1 deleteScheduleV2 disableTaskQueue unregisterBlockingTrigger
  setTrigger deleteTrigger setInvokerOnCreate createV1Function createV2Function
  updateV1Function updateV2Function deleteV1Function deleteV2Function
  createEndpoint deleteEndpoint updateEndpoint pollOperation_gcfV2 pollOperation_void
  : fab.

(** One step of a derivation of [respects]; [side] proves the conditions on
    the calls and on the errors. *)
Ltac respects_step side :=
  cbv beta zeta;
  lazymatch goal with
  | |- respects _ _ _ (bind _ _) _ _ => eapply respects_bind_any; [| intros ?]
  | |- respects _ _ _ (catch _ (rethrowAs _ _)) _ _ =>
      eapply respects_catch with (E' := fun _ => True);
      [| intros ? _; unfold rethrowAs; apply respects_throw; side]
  | |- respects _ _ _ (catch _ _) _ _ =>
      eapply respects_catch with (E' := fun _ => True); [| intros ? _]
  | |- respects _ _ _ (Executor_run _) _ _ => unfold Executor_run
  | |- respects _ _ _ (ret _) _ _ => apply respects_ret; exact I
  | |- respects _ _ _ (throw _) _ _ => apply respects_throw; side
  | |- respects _ _ _ (issue _ _) _ _ => apply respects_issue; side
  | |- respects _ _ _ (deref _) _ _ => apply respects_deref
  | |- respects _ _ _ (assign _ _) _ _ => apply respects_assign
  | |- respects _ _ _ (tokenPromise _) _ _ => apply respects_tokenPromise
  | |- respects _ _ _ (pollOperation_gcf _ _) _ _ => apply respects_pollOperation_gcf; side
  | |- respects _ _ _ (triggerQueue_then _) _ _ =>
      apply respects_triggerQueue_then; [side |]
  | |- respects _ _ _ (match ?x with _ => _ end) _ _ => destruct x eqn:?
  | |- respects _ _ _ _ _ _ => progress autounfold with fab
  end.

Ltac respects_auto side := repeat respects_step side.

Lemma respects_handle : forall Is Iq P w op endpoint fn (E : Err -> Prop),
  respects Is Iq P fn E (fun _ => True) ->
  respects Is Iq P (handle w op endpoint fn) (fun _ => False)
    (fun d => dr_endpoint d = endpoint /\ forall e, dr_error d = Some e -> E e).
Proof.
  intros Is Iq P w op endpoint fn E Hfn s Hs. unfold handle, bind, Timer_new, Timer_stop, ret.
  destruct (Hfn s Hs) as (Hi & Hl & Hr).
  destruct (fn s) as [s1 [e | u]]; cbn [fst snd dr_error dr_endpoint] in *.
  - split; [exact Hi |]. split; [exact Hl |]. split; [reflexivity |].
    intros e' He'. inversion He'; subst. exact Hr.
  - split; [exact Hi |]. split; [exact Hl |]. split; [reflexivity |].
    intros e' He'. discriminate.
Qed.

(** ** Errors that reach a result *)

Ltac side_thrown :=
  cbv beta;
  first
    [ exact I
    | intros; exact I
    | intros; discriminate
    | left; exact I
    | split; [exact I | left; exact I]
    | right; split; [reflexivity | first [left; assumption | right; assumption]]
    | intros ? H; left; exact H
    | intros; assumption ].

Section ThrownErrors.

Variable imp : Imports.
Variable w : World.
Variable this : FabricatorArgs.

Lemma createEndpoint_throws : forall endpoint scraper,
  respects (fun _ => True) isDeploymentError (fun _ => True)
    (createEndpoint imp w this endpoint scraper)
    (thrown this) (fun _ => True).
Proof. intros. respects_auto side_thrown. Qed.

Lemma deleteEndpoint_throws : forall endpoint,
  respects (fun _ => True) isDeploymentError (fun _ => True)
    (deleteEndpoint imp w this endpoint)
    (thrown this) (fun _ => True).
Proof. intros. respects_auto side_thrown. Qed.

Lemma updateEndpoint_throws : forall update scraper,
  respects (fun _ => True) isDeploymentError (fun _ => True)
    (updateEndpoint imp w this update scraper)
    (thrown this) (fun _ => True).
Proof.
  intros. unfold updateEndpoint.
  eapply respects_bind_any; [apply respects_assign | intros _].
  destruct (upd_deleteAndRecreate update).
  - eapply respects_bind_any; [apply deleteEndpoint_throws | intros _].
    apply createEndpoint_throws.
  - respects_auto side_thrown.
Qed.

End ThrownErrors.

Lemma Forall_fulfilledValues : forall (A : Type) (Q : A -> Prop) E l,
  Forall (fun r => match r with
                   | fulfilled a => Q a
                   | rejected e => E e
                   end) l ->
  Forall Q (fulfilledValues l).
Proof.
  intros A Q E l H. induction H as [| r l Hr _ IH]; cbn.
  - constructor.
  - destruct r; cbn; [constructor |]; assumption.
Qed.

Section RecordedErrors.

Variable imp : Imports.
Variable w : World.
Variable this : FabricatorArgs.

Lemma handle_records : forall op endpoint fn,
  respects (fun _ => True) isDeploymentError (fun _ => True) fn (thrown this)
    (fun _ => True) ->
  respects (fun _ => True) isDeploymentError (fun _ => True)
    (handle w op endpoint fn) (fun _ => False)
    (recorded this).
Proof.
  intros op endpoint fn H.
  eapply respects_weaken; [apply respects_handle; exact H | auto |].
  intros d [_ Hd] e He. left. auto.
Qed.

Lemma upserts_record : forall changes scraper p,
  In p (upserts imp w this changes scraper) ->
  respects (fun _ => True) isDeploymentError (fun _ => True) p (fun _ => False)
    (recorded this).
Proof.
  intros changes scraper p Hp. unfold upserts in Hp.
  apply in_app_or in Hp as [Hp | Hp]; apply in_map_iff in Hp as (x & <- & _);
    apply handle_records.
  - apply createEndpoint_throws.
  - apply updateEndpoint_throws.
Qed.

Lemma deletes_record : forall changes p,
  In p (deletes imp w this changes) ->
  respects (fun _ => True) isDeploymentError (fun _ => True) p (fun _ => False)
    (recorded this).
Proof.
  intros changes p Hp. unfold deletes in Hp.
  apply in_map_iff in Hp as (x & <- & _).
  apply handle_records. apply deleteEndpoint_throws.
Qed.

Lemma applyChangeset_records : forall changes,
  respects (fun _ => True) isDeploymentError (fun _ => True)
    (applyChangeset imp w this changes) (fun _ => False)
    (Forall (recorded this)).
Proof.
  intros changes. unfold applyChangeset.
  eapply respects_bind_any.
  { intros s Hs. cbn. repeat split; try apply Hs.
    exists []. rewrite app_nil_r. auto. }
  intros scraper. eapply respects_bind.
  { apply respects_allSettled. apply upserts_record. }
  intros settled Hsettled. cbv beta zeta.
  apply Forall_fulfilledValues in Hsettled.
  destruct (existsb hasError (fulfilledValues settled)).
  - apply respects_ret. apply Forall_app. split; [exact Hsettled |].
    apply Forall_forall. intros d Hd. apply in_map_iff in Hd as (x & <- & _).
    intros e He. cbn in He. inversion He; subst. right. reflexivity.
  - eapply respects_bind.
    { apply respects_allSettled. apply deletes_record. }
    intros settled2 Hsettled2. apply Forall_fulfilledValues in Hsettled2.
    apply respects_ret. apply Forall_app. auto.
Qed.

Lemma applyPlan_records : forall plan,
  respects (fun _ => True) isDeploymentError (fun _ => True)
    (applyPlan imp w this plan) (fun _ => False)
    (fun summary => Forall (recorded this) (results summary)).
Proof.
  intros plan. unfold applyPlan.
  eapply respects_bind_any; [apply respects_timer_new | intros timer].
  eapply respects_bind.
  { apply respects_allSettled with (Q := Forall (recorded this)).
    intros p Hp. apply in_map_iff in Hp as (c & <- & _). apply applyChangeset_records. }
  intros settled Hsettled. cbv beta zeta.
  apply Forall_fulfilledValues in Hsettled.
  eapply respects_bind_any; [apply respects_timer_stop | intros total].
  apply respects_ret. cbn [results].
  apply Forall_concat. exact Hsettled.
Qed.

End RecordedErrors.

(** C5, as the code has it.  Every error in a result of [applyPlan] is a
    [DeploymentError], the [AbortedDeploymentError] of that result's skipped
    delete, or the plain ["Precondition failed"] error, and the latter only
    when the fabricator lacks [sourceUrl] or [storage].  The precondition is
    checked first: without the locator the platform create or update throws
    at once, leaving the store and the log as they were; and [handle] puts
    whatever its operation throws into the result as it is. *)
Theorem precondition_error_is_recorded_unwrapped : forall imp w this,
  (forall plan s s' summary r e,
     queue_inv s ->
     applyPlan imp w this plan s = (s', inr summary) ->
     In r (results summary) ->
     dr_error r = Some e ->
     isDeploymentError e
     \/ e = AbortedDeploymentError (dr_endpoint r)
     \/ (e = JsError "Precondition failed"
         /\ (truthy_string (sourceUrl this) = None \/ storage this = None)))
  /\ (truthy_string (sourceUrl this) = None ->
      forall endpoint scraper s,
        createV1Function imp w this endpoint scraper s
        = (s, inl (JsError "Precondition failed"))
        /\ updateV1Function imp w this endpoint scraper s
           = (s, inl (JsError "Precondition failed")))
  /\ (storage this = None ->
      forall endpoint s,
        createV2Function imp w this endpoint s = (s, inl (JsError "Precondition failed"))
        /\ updateV2Function imp w this endpoint s
           = (s, inl (JsError "Precondition failed")))
  /\ (forall op endpoint fn s s1 e,
        fn s = (s1, inl e) ->
        exists d, handle w op endpoint fn s = (s1, inr d)
                  /\ dr_endpoint d = endpoint /\ dr_error d = Some e).
Proof.
  intros imp w this. split; [| split; [| split]].
  - intros plan s s' summary r e Hq Hrun Hin He.
    destruct (applyPlan_records imp w this plan s) as (_ & _ & Hres).
    { split; [exact I | exact Hq]. }
    rewrite Hrun in Hres. cbn [snd] in Hres.
    rewrite Forall_forall in Hres.
    destruct (Hres r Hin e He) as [[Hd | Hp] | Ha]; auto.
  - intros Hsrc endpoint scraper s.
    unfold createV1Function, updateV1Function. rewrite Hsrc. split; reflexivity.
  - intros Hsto endpoint s.
    unfold createV2Function, updateV2Function. rewrite Hsto. split; reflexivity.
  - intros op endpoint fn s s1 e Hfn.
    unfold handle, bind, Timer_new, Timer_stop, ret. rewrite Hfn.
    eexists. split; [reflexivity |]. split; reflexivity.
Qed.

(** A fabricator built without [sourceUrl] creates the v1 function ["a"]:
    the result carries the plain precondition error. *)
Lemma precondition_error_is_recorded_unwrapped_witness :
  let e := JsError "Precondition failed" in
  isDeploymentError e
  \/ e = AbortedDeploymentError 0%nat
  \/ (e = JsError "Precondition failed"
      /\ (truthy_string (sourceUrl Scenario.args_without_sourceUrl) = None
          \/ storage Scenario.args_without_sourceUrl = None)).
Proof.
  intros e.
  refine (proj1 (precondition_error_is_recorded_unwrapped Scenario.imports Scenario.calm
                   Scenario.args_without_sourceUrl)
            Scenario.create_a (constructor Scenario.heap)
            (fst (applyPlan Scenario.imports Scenario.calm Scenario.args_without_sourceUrl
                    Scenario.create_a (constructor Scenario.heap)))
            (mkSummary 0 [mkDeployResult 0%nat 0 (Some e)])
            (mkDeployResult 0%nat 0 (Some e)) e _ _ _ _).
  - intros e' He'. discriminate He'.
  - vm_compute. reflexivity.
  - left. reflexivity.
  - reflexivity.
Defined.

(** C5, as the claim states it, fails: the precondition error, which is not a
    [DeploymentError], is caught by [handle] and reaches the result. *)
Lemma precondition_error_reaches_result :
  ~ (forall imp w this plan s s' summary r e,
       queue_inv s ->
       applyPlan imp w this plan s = (s', inr summary) ->
       In r (results summary) ->
       dr_error r = Some e ->
       isDeploymentError e \/ isAbortedDeploymentError e).
Proof.
  intros H.
  assert (queue_inv (constructor Scenario.heap)) as Hq
    by (intros e' He'; discriminate He').
  assert (applyPlan Scenario.imports Scenario.calm Scenario.args_without_sourceUrl
            Scenario.create_a (constructor Scenario.heap)
          = (fst (applyPlan Scenario.imports Scenario.calm Scenario.args_without_sourceUrl
                    Scenario.create_a (constructor Scenario.heap)),
             inr (mkSummary 0
                    [mkDeployResult 0%nat 0 (Some (JsError "Precondition failed"))])))
    as Hrun by (vm_compute; reflexivity).
  destruct (H _ _ _ _ _ _ _ _ _ Hq Hrun (or_introl eq_refl) eq_refl) as [Hd | Ha].
  - exact Hd.
  - exact Ha.
Qed.

(** ** The trigger queue *)

(** Once the queue is rejected, every later registration or unregistration
    is rejected with the reason of the queue; its callback never runs, so
    nothing is called and the queue stays rejected. *)
Lemma rejected_triggerQueue_is_final : forall w endpoint update s reason,
  triggerQueue s = Some reason ->
  registerBlockingTrigger w endpoint update s = (s, inl reason)
  /\ unregisterBlockingTrigger w endpoint s = (s, inl reason).
Proof.
  intros w endpoint update s reason H.
  unfold registerBlockingTrigger, unregisterBlockingTrigger, triggerQueue_then.
  rewrite H. split; reflexivity.
Qed.

(** On a fulfilled queue a registration issues its own call, and its promise
    settles with the outcome of that call, which also settles the queue. *)
Lemma fulfilled_triggerQueue_runs_registration : forall w endpoint update s,
  triggerQueue s = None ->
  let call := services_registerTrigger (objects s endpoint) update in
  registerBlockingTrigger w endpoint update s
  = match w_registerTrigger w (log s) (objects s endpoint) update with
    | inr _ => (mkStore (objects s) (scrapers s) None (log s ++ [call]), inr tt)
    | inl cause =>
        let reason := DeploymentError endpoint op_register_blocking_trigger cause in
        (mkStore (objects s) (scrapers s) (Some reason) (log s ++ [call]), inl reason)
    end.
Proof.
  intros w endpoint update s H. cbv zeta.
  unfold registerBlockingTrigger, triggerQueue_then. rewrite H.
  unfold catch, Executor_run, bind, deref, issue, rethrowAs, throw.
  destruct (w_registerTrigger w (log s) (objects s endpoint) update) as [cause | []];
    reflexivity.
Qed.

(** C3.  Two registrations on one fabricator, the first of which is refused
    by the backend: the promise returned to the second submitter is rejected
    with the error of the first registration, and the backend call of the
    second is never issued; so is a later unregistration.  The second promise
    does not settle with the completion of its own call. *)
Theorem rejected_registration_settles_later_submitters :
  let w := Scenario.before_create_fails in
  let failure :=
    DeploymentError 3%nat op_register_blocking_trigger
      (HttpError 503 "Service unavailable") in
  let first := settle (registerBlockingTrigger w 3%nat false) (constructor Scenario.heap) in
  let second := settle (registerBlockingTrigger w 4%nat false) (fst first) in
  let third := settle (unregisterBlockingTrigger w 4%nat) (fst second) in
  snd first = inr (rejected failure)
  /\ issued (constructor Scenario.heap) (fst first)
     = [services_registerTrigger (Scenario.heap 3%nat) false]
  /\ snd second = inr (rejected failure)
  /\ issued (fst first) (fst second) = []
  /\ snd third = inr (rejected failure)
  /\ issued (fst second) (fst third) = [].
Proof. vm_compute. repeat split; reflexivity. Qed.

(** C4.  A plan of two changesets, each creating one blocking function.  The
    two worlds differ only in the answer to the registration of the trigger
    of the first changeset; when that registration fails, the result of the
    endpoint of the second changeset carries the error of the first one,
    while it has no error when the registration succeeds. *)
Theorem failure_in_one_changeset_reaches_another :
  let run w :=
    snd (applyPlan Scenario.imports w Scenario.args Scenario.two_regions
           (constructor Scenario.heap)) in
  let failure :=
    DeploymentError 3%nat op_register_blocking_trigger
      (HttpError 503 "Service unavailable") in
  run Scenario.calm
  = inr (mkSummary 8 [mkDeployResult 3%nat 4 None; mkDeployResult 4%nat 4 None])
  /\ run Scenario.before_create_fails
     = inr (mkSummary 7 [mkDeployResult 3%nat 4 (Some failure);
                         mkDeployResult 4%nat 3 (Some failure)]).
Proof. vm_compute. split; reflexivity. Qed.

(** ** The calls of the platform operations *)

Lemma issued_refl : forall s, issued s s = [].
Proof. intros s. apply issued_app. rewrite app_nil_r. reflexivity. Qed.

Lemma forEach_scraper_poller : forall ticks scraper s,
  forEach ticks (scraper_poller scraper) s
  = (mkStore (objects s) (fed scraper ticks (scrapers s)) (triggerQueue s) (log s), inr tt).
Proof.
  induction ticks as [| tick ticks IH]; intros scraper s.
  - destruct s. reflexivity.
  - cbn [forEach]. unfold bind.
    destruct (scraper_poller scraper tick s) as [s1 r] eqn:E.
    unfold scraper_poller, scraper_state in E.
    unfold fed. cbn [fold_left]. unfold ScraperState in *.
    revert E.
    destruct (@nth (option string) scraper (scrapers s) None) eqn:Hn;
      [| destruct (metadata_sourceToken tick)]; intros E; injection E as <- <-;
      rewrite IH; reflexivity.
Qed.

Lemma pollOperation_gcf_run : forall w options s,
  pollOperation_gcf w options s
  = (mkStore (objects s) (polled_scrapers w options s) (triggerQueue s)
       (log s ++ [poller_pollOperation options]),
     snd (w_pollOperation_gcf w (log s) options)).
Proof.
  intros w options s. unfold pollOperation_gcf, polled_scrapers, bind, issue.
  destruct (onPoll options).
  - rewrite forEach_scraper_poller. reflexivity.
  - reflexivity.
Qed.

Lemma setInvokerOnCreate_run :
  forall imp endpoint (call : list string -> Call)
         (oracle : list string -> History -> Err + unit) s,
    let invokers := createInvokers imp (objects s endpoint) in
    let out := setInvokerOnCreate imp endpoint
                 (fun invoker => issue (call invoker) (oracle invoker)) s in
    fst out = mkStore (objects s) (scrapers s) (triggerQueue s) (log s ++ map call invokers)
    /\ (snd out = inr tt
        \/ (invokers <> []
            /\ exists cause, snd out = inl (DeploymentError endpoint op_set_invoker cause))).
Proof.
  intros imp endpoint call oracle s. cbv zeta.
  unfold setInvokerOnCreate, createInvokers, bind, deref.
  destruct s as [objs scr q lg]. cbn [objects scrapers triggerQueue log].
  destruct (ep_trigger (objs endpoint)) as [inv | | sch | ev | inv | ev];
    try (cbn; rewrite app_nil_r; split; [reflexivity | left; reflexivity]).
  - destruct (includes (or_else inv ["public"]) "private"); cbn [negb].
    + cbn. rewrite app_nil_r. split; [reflexivity | left; reflexivity].
    + unfold catch, Executor_run, issue, rethrowAs, throw. cbn.
      destruct (oracle _ lg) as [c | []]; cbn; split; try reflexivity.
      * right. split; [discriminate | eauto].
      * left. reflexivity.
  - unfold catch, Executor_run, issue, rethrowAs, throw. cbn.
    destruct (oracle _ lg) as [c | []]; cbn; split; try reflexivity.
    + right. split; [discriminate | eauto].
    + left. reflexivity.
  - destruct inv as [inv |].
    + destruct (includes inv "private"); cbn [negb].
      * cbn. rewrite app_nil_r. split; [reflexivity | left; reflexivity].
      * unfold catch, Executor_run, issue, rethrowAs, throw. cbn.
        destruct (oracle _ lg) as [c | []]; cbn; split; try reflexivity.
        -- right. split; [discriminate | eauto].
        -- left. reflexivity.
    + cbn. rewrite app_nil_r. split; [reflexivity | left; reflexivity].
  - destruct (includes (AUTH_BLOCKING_EVENTS imp) ev).
    + unfold catch, Executor_run, issue, rethrowAs, throw. cbn.
      destruct (oracle _ lg) as [c | []]; cbn; split; try reflexivity.
      * right. split; [discriminate | eauto].
      * left. reflexivity.
    + cbn. rewrite app_nil_r. split; [reflexivity | left; reflexivity].
Qed.

Lemma bind_deref : forall (A : Type) r (k : Endpoint -> M A) s,
  bind (deref r) k s = k (objects s r) s.
Proof. reflexivity. Qed.

Lemma bind_tokenPromise : forall (A : Type) scraper (k : option string -> M A) s,
  bind (tokenPromise scraper) k s = k (scraper_state s scraper) s.
Proof. reflexivity. Qed.

Lemma bind_assign : forall (A : Type) r f (k : unit -> M A) s,
  bind (assign r f) k s
  = k tt (mkStore (fun r' => if Nat.eqb r' r then f (objects s r) else objects s r')
            (scrapers s) (triggerQueue s) (log s)).
Proof. reflexivity. Qed.

(** A task of one call followed by a continuation, run by an executor, its
    failure rethrown as a [DeploymentError]. *)
Lemma catch_issue_then : forall (A B : Type) c (o : History -> Err + A) (k : A -> M B)
    endpoint kind s,
  catch (Executor_run (bind (issue c o) k)) (rethrowAs endpoint kind) s
  = match o (log s) with
    | inl cause => (logged s [c], inl (DeploymentError endpoint kind cause))
    | inr a =>
        match k a (logged s [c]) with
        | (s', inl cause) => (s', inl (DeploymentError endpoint kind cause))
        | (s', inr b) => (s', inr b)
        end
    end.
Proof.
  intros. unfold catch, Executor_run, bind, issue, rethrowAs, throw.
  destruct (o (log s)) as [cause | a]; [reflexivity |].
  destruct (k a (logged s [c])) as [s' [cause | b]]; reflexivity.
Qed.

Lemma catch_issue : forall (A : Type) c (o : History -> Err + A) endpoint kind s,
  catch (Executor_run (issue c o)) (rethrowAs endpoint kind) s
  = (logged s [c],
     match o (log s) with
     | inl cause => inl (DeploymentError endpoint kind cause)
     | inr a => inr a
     end).
Proof.
  intros. unfold catch, Executor_run, issue, rethrowAs, throw.
  destruct (o (log s)); reflexivity.
Qed.

Lemma logged_logged : forall s a b, logged (logged s a) b = logged s (a ++ b).
Proof. intros. unfold logged. cbn. rewrite <- app_assoc. reflexivity. Qed.

Lemma issued_logged : forall s calls, issued s (logged s calls) = calls.
Proof. intros. apply issued_app. reflexivity. Qed.

Lemma createInvokers_set_uri : forall imp u e,
  createInvokers imp (set_uri u e) = createInvokers imp e.
Proof. reflexivity. Qed.

Lemma createV1Function_run : forall imp w this endpoint scraper s u,
  truthy_string (sourceUrl this) = Some u ->
  let e := objects s endpoint in
  let out := createV1Function imp w this endpoint scraper s in
  exists fn,
    cf_sourceToken fn = scraper_state s scraper
    /\ cf_httpsTrigger fn
       = match cf_httpsTrigger (gcf_functionFromEndpoint imp e u) with
         | Some t => Some (mkHttpsTrigger (Some "SECURE_ALWAYS") (url t))
         | None => None
         end
    /\ ((issued s (fst out) = [gcf_createFunction fn]
         /\ scrapers (fst out) = scrapers s
         /\ exists cause, snd out = inl (DeploymentError endpoint op_create cause))
        \/ exists options,
             onPoll options = Some scraper
             /\ scrapers (fst out)
                = fed scraper
                    (fst (w_pollOperation_gcf w (log s ++ [gcf_createFunction fn]) options))
                    (scrapers s)
             /\ ((issued s (fst out) = [gcf_createFunction fn; poller_pollOperation options]
                  /\ exists cause, snd out = inl (DeploymentError endpoint op_create cause))
                 \/ (exists name,
                       issued s (fst out)
                       = gcf_createFunction fn :: poller_pollOperation options
                         :: map (gcf_setInvokerCreate (ep_project e) name)
                              (createInvokers imp e))
                    /\ (snd out = inr tt
                        \/ exists cause,
                             snd out = inl (DeploymentError endpoint op_set_invoker cause)))).
Proof.
  intros imp w this endpoint scraper s u Hu e out.
  destruct out as [s' r] eqn:E. subst out. cbn [fst snd].
  unfold createV1Function in E. rewrite Hu in E.
  rewrite bind_deref in E. fold e in E. cbv zeta in E. rewrite bind_tokenPromise in E.
  match type of E with
  | context [issue (gcf_createFunction ?f)] => set (fn := f) in E
  end.
  exists fn.
  split; [reflexivity |]. split.
  { subst fn. unfold set_sourceToken, set_securityLevel. cbn [cf_httpsTrigger].
    destruct (cf_httpsTrigger (gcf_functionFromEndpoint imp e u)) eqn:Ht;
      cbn [cf_httpsTrigger]; [reflexivity | exact Ht]. }
  clearbody fn.
  unfold bind at 1 in E. rewrite catch_issue_then in E.
  destruct (w_gcf_createFunction w (log s) fn) as [cause | op].
  - left. injection E as <- <-. cbn [scrapers logged].
    split; [apply issued_app; reflexivity |]. split; [reflexivity | eauto].
  - right. rewrite bind_deref in E. rewrite pollOperation_gcf_run in E.
    cbn [log objects scrapers triggerQueue logged] in E. fold e in E.
    match type of E with
    | context [poller_pollOperation ?o] => set (options := o) in E
    end.
    exists options. split; [reflexivity |].
    destruct (snd (w_pollOperation_gcf w (log s ++ [gcf_createFunction fn]) options))
      as [cause | resultFunction].
    + injection E as <- <-. cbn [scrapers]. split; [reflexivity |]. left.
      split; [apply issued_app; cbn [log]; rewrite <- app_assoc; reflexivity | eauto].
    + rewrite bind_assign in E. rewrite bind_deref in E.
      cbn [log objects scrapers triggerQueue] in E.
      rewrite Nat.eqb_refl in E. fold e in E.
      match type of E with
      | setInvokerOnCreate _ _ (fun invoker => issue (?c invoker) _) ?st = _ =>
          destruct (setInvokerOnCreate_run imp endpoint c
                      (fun invoker h =>
                         w_gcf_setInvokerCreate w h
                           (ep_project (set_uri
                              match resultFunction with
                              | Some f => match cf_httpsTrigger f with
                                          | Some t => url t
                                          | None => None
                                          end
                              | None => None
                              end e))
                           (backend_functionName imp (set_uri
                              match resultFunction with
                              | Some f => match cf_httpsTrigger f with
                                          | Some t => url t
                                          | None => None
                                          end
                              | None => None
                              end e)) invoker) st)
            as [Hst Hres]
      end.
      cbv beta in Hst, Hres. rewrite E in Hst, Hres. cbn [fst snd] in Hst, Hres.
      cbn [log objects scrapers triggerQueue] in Hst. rewrite Nat.eqb_refl in Hst.
      rewrite createInvokers_set_uri in Hst. fold e in Hst.
      subst s'. cbn [scrapers]. split; [reflexivity |]. right. split.
      * eexists. apply issued_app. cbn [log]. rewrite <- !app_assoc. reflexivity.
      * destruct Hres as [Hres | [_ Hres]]; auto.
Qed.

Lemma setConcurrency_run : forall w endpoint serviceName concurrency s,
  let out := setConcurrency w endpoint serviceName concurrency s in
  fst out = logged s (concurrencyCalls w (log s) serviceName concurrency)
  /\ (snd out = inr tt
      \/ exists cause, snd out = inl (DeploymentError endpoint op_set_concurrency cause)).
Proof.
  intros w endpoint serviceName concurrency s. cbv zeta.
  unfold setConcurrency. rewrite catch_issue_then. unfold concurrencyCalls.
  destruct (w_run_getService w (log s) serviceName) as [cause | service].
  - cbn [fst snd]. split; [reflexivity | eauto].
  - destruct (match containerConcurrency service with
              | Some c => c =? concurrency
              | None => false
              end).
    + cbn. split; [reflexivity | auto].
    + cbv zeta. unfold issue. cbn [log logged].
      destruct (w_run_replaceService w _ serviceName _) as [cause | []];
        cbn [fst snd]; rewrite logged_logged; split; try reflexivity; eauto.
Qed.

Lemma topic_stage : forall w endpoint (t : option string) s s1 r,
  match t with
  | Some topic =>
      catch
        (Executor_run
           (catch
              (issue (pubsub_createTopic topic) (fun h => w_pubsub_createTopic w h topic))
              (fun err =>
                 match status err with
                 | Some 409 => ret tt
                 | _ => throw (FirebaseError "Unexpected error creating Pub/Sub topic" err)
                 end)))
        (rethrowAs endpoint op_create_topic)
  | None => ret tt
  end s = (s1, r) ->
  exists tc,
    (tc = [] \/ exists topic, tc = [pubsub_createTopic topic])
    /\ objects s1 = objects s /\ scrapers s1 = scrapers s
    /\ triggerQueue s1 = triggerQueue s /\ log s1 = log s ++ tc
    /\ (r = inr tt
        \/ exists cause, r = inl (DeploymentError endpoint op_create_topic cause)).
Proof.
  intros w endpoint t s s1 r H. destruct t as [topic |].
  - exists [pubsub_createTopic topic].
    unfold catch, Executor_run, issue, rethrowAs, throw, ret in H.
    destruct (w_pubsub_createTopic w (log s) topic) as [err | []].
    + destruct (status err) as [[| p |] |]; try (injection H as <- <-; cbn; eauto 10).
      do 10 (try destruct p as [p | p |]); injection H as <- <-; cbn; eauto 10.
    + injection H as <- <-. cbn. eauto 10.
  - exists []. injection H as <- <-. rewrite app_nil_r. auto 10.
Qed.

Lemma invokersSet_topic : forall tc,
  tc = [] \/ (exists topic, tc = [pubsub_createTopic topic]) ->
  invokersSet tc = [] /\ servicesFetched tc = [] /\ concurrencyWritten tc = [].
Proof. intros tc [-> | [t ->]]; repeat split; reflexivity. Qed.

Lemma createV2Function_run : forall imp w this endpoint s sto,
  storage this = Some sto ->
  let e := objects s endpoint in
  let out := createV2Function imp w this endpoint s in
  exists topicCalls,
    invokersSet topicCalls = [] /\ servicesFetched topicCalls = []
    /\ concurrencyWritten topicCalls = []
    /\ ((issued s (fst out) = topicCalls
         /\ exists cause, snd out = inl (DeploymentError endpoint op_create_topic cause))
        \/ exists fn,
             (issued s (fst out) = topicCalls ++ [gcfV2_createFunction fn]
              /\ exists cause, snd out = inl (DeploymentError endpoint op_create cause))
             \/ exists options,
                  (issued s (fst out)
                   = topicCalls ++ [gcfV2_createFunction fn; poller_pollOperation options]
                   /\ exists cause, snd out = inl (DeploymentError endpoint op_create cause))
                  \/ exists serviceName,
                       let built :=
                         topicCalls
                         ++ gcfV2_createFunction fn :: poller_pollOperation options
                            :: map (run_setInvokerCreate (ep_project e) serviceName)
                                 (createInvokers imp e) in
                       (issued s (fst out) = built
                        /\ createInvokers imp e <> []
                        /\ exists cause,
                             snd out = inl (DeploymentError endpoint op_set_invoker cause))
                       \/ (issued s (fst out)
                           = built
                             ++ (if memoryAllowsConcurrency imp e
                                 then concurrencyCalls w (log s ++ built) serviceName
                                        (or_else (truthy_number (ep_concurrency e))
                                           DEFAULT_GCFV2_CONCURRENCY)
                                 else [])
                           /\ (snd out = inr tt
                               \/ exists cause,
                                    snd out
                                    = inl (DeploymentError endpoint op_set_concurrency
                                             cause)))).
Proof.
  intros imp w this endpoint s sto Hsto e out.
  destruct out as [s' r] eqn:E. subst out. cbn [fst snd].
  unfold createV2Function in E. rewrite Hsto in E.
  rewrite bind_deref in E. fold e in E. cbv zeta in E.
  match type of E with
  | context [issue (gcfV2_createFunction ?f)] => set (fn := f) in E
  end.
  clearbody fn.
  apply bind_inv in E as [(s1 & [] & Etopic & E) | (cause & Etopic & ->)];
    apply topic_stage in Etopic as (tc & Htc & Ho & Hsc & Hq & Hl & Hr);
    exists tc; destruct (invokersSet_topic tc Htc) as (Hi1 & Hi2 & Hi3);
    (split; [exact Hi1 |]); (split; [exact Hi2 |]); (split; [exact Hi3 |]).
  2: { left. split; [apply issued_app; exact Hl |].
       destruct Hr as [Hr | Hr]; [discriminate | exact Hr]. }
  clear Hr Htc Hi1 Hi2 Hi3. right. exists fn.
  apply bind_inv in E as [(s2 & resultFunction & Ecreate & E) | (cause & Ecreate & ->)];
    rewrite catch_issue_then in Ecreate;
    destruct (w_gcfV2_createFunction w (log s1) fn) as [cause' | op];
    try discriminate.
  2: { left. injection Ecreate as <- <-. split; [| eauto].
       apply issued_app. cbn [log logged]. rewrite Hl, <- app_assoc. reflexivity. }
  2: { right. rewrite bind_deref in Ecreate.
       unfold pollOperation_gcfV2, issue in Ecreate.
       match type of Ecreate with
       | context [poller_pollOperation ?o] => set (options := o) in Ecreate
       end.
       exists options. left.
       destruct (w_pollOperation_gcfV2 w _ options); [| discriminate].
       injection Ecreate as <- <-. split; [| eauto].
       apply issued_app. rewrite logged_logged. cbn [log logged].
       rewrite Hl, <- app_assoc. reflexivity. }
  right. rewrite bind_deref in Ecreate.
  unfold pollOperation_gcfV2, issue in Ecreate.
  match type of Ecreate with
  | context [poller_pollOperation ?o] => set (options := o) in Ecreate
  end.
  exists options. right.
  destruct (w_pollOperation_gcfV2 w _ options) as [cause' | rf]; [discriminate |].
  injection Ecreate as <- <-. rewrite logged_logged in E.
  exists (sc_service (v2_serviceConfig rf)). cbv zeta.
  rewrite bind_assign in E. rewrite bind_deref in E.
  cbn [log objects scrapers triggerQueue logged] in E.
  rewrite Nat.eqb_refl in E. rewrite Ho in E. fold e in E.
  apply bind_inv in E as [(s3 & [] & Einv & E) | (cause & Einv & ->)];
    match type of Einv with
    | setInvokerOnCreate _ _ (fun invoker => issue (?c invoker) _) ?st = _ =>
        destruct (setInvokerOnCreate_run imp endpoint c
                    (fun invoker h =>
                       w_run_setInvokerCreate w h
                         (ep_project (set_uri (sc_uri (v2_serviceConfig rf)) e))
                         (sc_service (v2_serviceConfig rf)) invoker) st)
          as [Hst Hres]
    end;
    cbv beta in Hst, Hres; rewrite Einv in Hst, Hres; cbn [fst snd] in Hst, Hres;
    cbn [log objects scrapers triggerQueue] in Hst; rewrite Nat.eqb_refl in Hst;
    rewrite createInvokers_set_uri in Hst; fold e in Hst;
    cbn [log objects scrapers triggerQueue] in Hres; rewrite Nat.eqb_refl in Hres;
    rewrite createInvokers_set_uri in Hres; fold e in Hres.
  2: { left. destruct Hres as [Hres | [Hne Hres]]; [discriminate |].
       split; [| split; [exact Hne | exact Hres]].
       subst s'. apply issued_app. cbn [log]. rewrite Hl, <- !app_assoc. reflexivity. }
  clear Hres. right.
  rewrite bind_deref in E. subst s3.
  cbn [log objects scrapers triggerQueue] in E. rewrite Nat.eqb_refl in E.
  change ((MIN_MEMORY_FOR_CONCURRENCY imp
           <=? or_else (truthy_number (ep_availableMemoryMb
                                         (set_uri (sc_uri (v2_serviceConfig rf)) e)))
                 (DEFAULT_MEMORY imp))
          && negb match ep_concurrency (set_uri (sc_uri (v2_serviceConfig rf)) e) with
                  | Some 1 => true
                  | _ => false
                  end)
    with (memoryAllowsConcurrency imp e) in E.
  cbn [ep_concurrency set_uri] in E.
  destruct (memoryAllowsConcurrency imp e).
  - match type of E with
    | setConcurrency _ _ ?svc ?c ?st = _ =>
        destruct (setConcurrency_run w endpoint svc c st) as [Hst Hres]
    end.
    rewrite E in Hst, Hres. cbn [fst snd] in Hst, Hres.
    split; [| exact Hres].
    subst s'. apply issued_app. cbn [log logged].
    rewrite Hl, <- !app_assoc. cbn [app]. reflexivity.
  - injection E as <- <-. split; [| auto].
    apply issued_app. cbn [log]. rewrite Hl, app_nil_r, <- !app_assoc. reflexivity.
Qed.

Lemma invokerOnUpdate_set_uri : forall imp u e,
  invokerOnUpdate imp (set_uri u e) = invokerOnUpdate imp e.
Proof. reflexivity. Qed.

Lemma updateV1Function_run : forall imp w this endpoint scraper s u,
  truthy_string (sourceUrl this) = Some u ->
  let e := objects s endpoint in
  let out := updateV1Function imp w this endpoint scraper s in
  exists fn,
    cf_sourceToken fn = scraper_state s scraper
    /\ ((issued s (fst out) = [gcf_updateFunction fn]
         /\ scrapers (fst out) = scrapers s
         /\ exists cause, snd out = inl (DeploymentError endpoint op_update cause))
        \/ exists options,
             onPoll options = Some scraper
             /\ scrapers (fst out)
                = fed scraper
                    (fst (w_pollOperation_gcf w (log s ++ [gcf_updateFunction fn]) options))
                    (scrapers s)
             /\ ((issued s (fst out) = [gcf_updateFunction fn; poller_pollOperation options]
                  /\ exists cause, snd out = inl (DeploymentError endpoint op_update cause))
                 \/ (exists name,
                       issued s (fst out)
                       = gcf_updateFunction fn :: poller_pollOperation options
                         :: match invokerOnUpdate imp e with
                            | Some invoker =>
                                [gcf_setInvokerUpdate (ep_project e) name invoker]
                            | None => []
                            end)
                    /\ (snd out = inr tt
                        \/ exists cause,
                             snd out = inl (DeploymentError endpoint op_set_invoker cause)))).
Proof.
  intros imp w this endpoint scraper s u Hu e out.
  destruct out as [s' r] eqn:E. subst out. cbn [fst snd].
  unfold updateV1Function in E. rewrite Hu in E.
  rewrite bind_deref in E. fold e in E. cbv zeta in E. rewrite bind_tokenPromise in E.
  match type of E with
  | context [issue (gcf_updateFunction ?f)] => set (fn := f) in E
  end.
  exists fn. split; [reflexivity |]. clearbody fn.
  unfold bind at 1 in E. rewrite catch_issue_then in E.
  destruct (w_gcf_updateFunction w (log s) fn) as [cause | op].
  - left. injection E as <- <-. cbn [scrapers logged].
    split; [apply issued_app; reflexivity |]. split; [reflexivity | eauto].
  - right. rewrite bind_deref in E. rewrite pollOperation_gcf_run in E.
    cbn [log objects scrapers triggerQueue logged] in E. fold e in E.
    match type of E with
    | context [poller_pollOperation ?o] => set (options := o) in E
    end.
    exists options. split; [reflexivity |].
    destruct (snd (w_pollOperation_gcf w (log s ++ [gcf_updateFunction fn]) options))
      as [cause | resultFunction].
    + injection E as <- <-. cbn [scrapers]. split; [reflexivity |]. left.
      split; [apply issued_app; cbn [log]; rewrite <- app_assoc; reflexivity | eauto].
    + rewrite bind_assign in E. rewrite bind_deref in E.
      cbn [log objects scrapers triggerQueue] in E.
      rewrite Nat.eqb_refl in E. fold e in E.
      rewrite invokerOnUpdate_set_uri in E.
      destruct (invokerOnUpdate imp e) as [invoker |].
      * rewrite catch_issue in E. injection E as <- <-. cbn [scrapers logged].
        split; [reflexivity |]. right. split.
        -- eexists. apply issued_app. cbn [log logged]. rewrite <- !app_assoc. reflexivity.
        -- destruct (w_gcf_setInvokerUpdate w _ _ _ invoker) as [cause | []]; eauto.
      * injection E as <- <-. cbn [scrapers]. split; [reflexivity |]. right. split.
        -- exists "". apply issued_app. cbn [log]. rewrite <- !app_assoc. reflexivity.
        -- auto.
Qed.

Lemma updateV2Function_run : forall imp w this endpoint s sto,
  storage this = Some sto ->
  let e := objects s endpoint in
  let out := updateV2Function imp w this endpoint s in
  exists fn,
    (issued s (fst out) = [gcfV2_updateFunction fn]
     /\ exists cause, snd out = inl (DeploymentError endpoint op_update cause))
    \/ exists options,
         (issued s (fst out) = [gcfV2_updateFunction fn; poller_pollOperation options]
          /\ exists cause, snd out = inl (DeploymentError endpoint op_update cause))
         \/ exists serviceName,
              let built :=
                gcfV2_updateFunction fn :: poller_pollOperation options
                :: match invokerOnUpdate imp e with
                   | Some invoker =>
                       [run_setInvokerUpdate (ep_project e) serviceName invoker]
                   | None => []
                   end in
              (issued s (fst out) = built
               /\ exists cause, snd out = inl (DeploymentError endpoint op_set_invoker cause))
              \/ (issued s (fst out)
                  = built
                    ++ match truthy_number (ep_concurrency e) with
                       | Some concurrency =>
                           concurrencyCalls w (log s ++ built) serviceName concurrency
                       | None => []
                       end
                  /\ (snd out = inr tt
                      \/ exists cause,
                           snd out
                           = inl (DeploymentError endpoint op_set_concurrency cause))).
Proof.
  intros imp w this endpoint s sto Hsto e out.
  destruct out as [s' r] eqn:E. subst out. cbn [fst snd].
  unfold updateV2Function in E. rewrite Hsto in E.
  rewrite bind_deref in E. fold e in E. cbv zeta in E.
  match type of E with
  | context [issue (gcfV2_updateFunction ?f)] => set (fn := f) in E
  end.
  exists fn. clearbody fn.
  apply bind_inv in E as [(s2 & resultFunction & Eupdate & E) | (cause & Eupdate & ->)];
    rewrite catch_issue_then in Eupdate;
    destruct (w_gcfV2_updateFunction w (log s) fn) as [cause' | op];
    try discriminate.
  2: { left. injection Eupdate as <- <-. split; [| eauto].
       apply issued_app. reflexivity. }
  2: { right. rewrite bind_deref in Eupdate.
       unfold pollOperation_gcfV2, issue in Eupdate.
       match type of Eupdate with
       | context [poller_pollOperation ?o] => set (options := o) in Eupdate
       end.
       exists options. left.
       destruct (w_pollOperation_gcfV2 w _ options); [| discriminate].
       injection Eupdate as <- <-. split; [| eauto].
       apply issued_app. rewrite logged_logged. reflexivity. }
  right. rewrite bind_deref in Eupdate.
  unfold pollOperation_gcfV2, issue in Eupdate.
  match type of Eupdate with
  | context [poller_pollOperation ?o] => set (options := o) in Eupdate
  end.
  exists options. right.
  destruct (w_pollOperation_gcfV2 w _ options) as [cause' | rf]; [discriminate |].
  injection Eupdate as <- <-. rewrite logged_logged in E.
  exists (sc_service (v2_serviceConfig rf)). cbv zeta.
  rewrite bind_assign in E. rewrite bind_deref in E.
  cbn [log objects scrapers triggerQueue logged] in E.
  rewrite Nat.eqb_refl in E. fold e in E.
  rewrite invokerOnUpdate_set_uri in E.
  apply bind_inv in E as [(s3 & [] & Einv & E) | (cause & Einv & ->)].
  2: { left. destruct (invokerOnUpdate imp e) as [invoker |]; [| discriminate].
       rewrite catch_issue in Einv.
       destruct (w_run_setInvokerUpdate w _ _ _ invoker) as [cause' | []];
         [| discriminate].
       injection Einv as <- <-. split; [| eauto].
       apply issued_app. cbn [log logged]. rewrite <- !app_assoc. reflexivity. }
  right. rewrite bind_deref in E.
  assert (s3 = mkStore
                 (fun r' => if Nat.eqb r' endpoint
                            then set_uri (sc_uri (v2_serviceConfig rf)) e
                            else objects s r')
                 (scrapers s) (triggerQueue s)
                 (log s ++ gcfV2_updateFunction fn :: poller_pollOperation options
                    :: match invokerOnUpdate imp e with
                       | Some invoker =>
                           [run_setInvokerUpdate (ep_project e)
                              (sc_service (v2_serviceConfig rf)) invoker]
                       | None => []
                       end)) as ->.
  { destruct (invokerOnUpdate imp e) as [invoker |].
    - rewrite catch_issue in Einv. injection Einv as <- _.
      unfold logged. cbn [log objects scrapers triggerQueue].
      rewrite <- ?app_assoc. reflexivity.
    - injection Einv as <-. unfold logged. cbn [log objects scrapers triggerQueue].
      rewrite <- ?app_assoc. reflexivity. }
  cbn [log objects scrapers triggerQueue] in E. rewrite Nat.eqb_refl in E.
  cbn [ep_concurrency set_uri] in E.
  destruct (truthy_number (ep_concurrency e)) as [concurrency |].
  - match type of E with
    | setConcurrency _ _ ?svc ?c ?st = _ =>
        destruct (setConcurrency_run w endpoint svc c st) as [Hst Hres]
    end.
    rewrite E in Hst, Hres. cbn [fst snd] in Hst, Hres.
    split; [| exact Hres].
    subst s'. apply issued_app. cbn [log logged].
    rewrite <- ?app_assoc. reflexivity.
  - injection E as <- <-. split; [| auto].
    apply issued_app. cbn [log]. rewrite app_nil_r. reflexivity.
Qed.

(** ** Concurrency, HTTPS and invokers *)

Lemma concurrency_matches : forall (live : option Z) concurrency,
  match live with
  | Some c => c =? concurrency
  | None => false
  end = true <-> live = Some concurrency.
Proof.
  intros [c |] concurrency; split; intros H; try discriminate.
  - apply Z.eqb_eq in H. subst. reflexivity.
  - injection H as ->. apply Z.eqb_refl.
Qed.

(** C8.  [setConcurrency] first fetches the live service.  When the fetched
    service's container concurrency already equals the target, the fetch is
    the only call: no replace call is issued.  A replace call is issued only
    after the fetch returned a service whose concurrency differs from the
    target; it is then the one call after the fetch, on the same service,
    and it writes the target. *)
Theorem setConcurrency_replaces_only_on_difference :
  forall w endpoint serviceName concurrency s,
    let calls := issued s (fst (setConcurrency w endpoint serviceName concurrency s)) in
    (forall service,
       w_run_getService w (log s) serviceName = inr service ->
       containerConcurrency service = Some concurrency ->
       calls = [run_getService serviceName])
    /\ (forall name replacement,
          In (run_replaceService name replacement) calls ->
          exists service,
            w_run_getService w (log s) serviceName = inr service
            /\ containerConcurrency service <> Some concurrency
            /\ name = serviceName
            /\ containerConcurrency replacement = Some concurrency)
    /\ (forall service,
          w_run_getService w (log s) serviceName = inr service ->
          containerConcurrency service <> Some concurrency ->
          exists replacement,
            calls = [run_getService serviceName; run_replaceService serviceName replacement]
            /\ containerConcurrency replacement = Some concurrency).
Proof.
  intros w endpoint serviceName concurrency s calls.
  destruct (setConcurrency_run w endpoint serviceName concurrency s) as [Hst _].
  assert (calls = concurrencyCalls w (log s) serviceName concurrency) as Hcalls
    by (subst calls; rewrite Hst; apply issued_logged).
  clearbody calls. subst calls. unfold concurrencyCalls.
  split; [| split].
  - intros service Hget Heq. rewrite Hget.
    apply concurrency_matches in Heq. rewrite Heq. reflexivity.
  - intros name replacement Hin.
    destruct (w_run_getService w (log s) serviceName) as [cause | service].
    + destruct Hin as [Hin | []]. discriminate.
    + destruct (match containerConcurrency service with
                | Some c => c =? concurrency
                | None => false
                end) eqn:Hm.
      * destruct Hin as [Hin | []]. discriminate.
      * destruct Hin as [Hin | [Hin | []]]; [discriminate |].
        injection Hin as <- <-. exists service. repeat split.
        intros Heq. apply concurrency_matches in Heq. congruence.
  - intros service Hget Hne. rewrite Hget.
    destruct (match containerConcurrency service with
              | Some c => c =? concurrency
              | None => false
              end) eqn:Hm.
    + apply concurrency_matches in Hm. contradiction.
    + eexists. split; reflexivity.
Qed.

(** The live service of the scenario runs with concurrency 1: setting 1
    only fetches it. *)
Lemma setConcurrency_replaces_only_on_difference_witness :
  issued (constructor Scenario.heap)
    (fst (setConcurrency Scenario.calm 6%nat "services/demo" 1 (constructor Scenario.heap)))
  = [run_getService "services/demo"].
Proof.
  exact (proj1 (setConcurrency_replaces_only_on_difference Scenario.calm 6%nat
                  "services/demo" 1 (constructor Scenario.heap))
           (mkService (Some "Ready") (Some "demo-00001") (Some 1)) eq_refl eq_refl).
Defined.

Lemma not_create_in_invokers : forall p n l fn,
  ~ In (gcf_createFunction fn) (map (gcf_setInvokerCreate p n) l).
Proof.
  intros p n l fn H. apply in_map_iff in H as (x & Hx & _). discriminate.
Qed.

(** C10.  In a v1 create by a fabricator that has its source URL, when the
    descriptor built from the endpoint has an HTTPS trigger, the first call
    issued is the create call, the descriptor it submits has that trigger
    with [securityLevel] set to ["SECURE_ALWAYS"], and it is the only create
    call. *)
Theorem createV1Function_requires_https :
  forall imp w this endpoint scraper s u httpsTrigger,
    truthy_string (sourceUrl this) = Some u ->
    cf_httpsTrigger (gcf_functionFromEndpoint imp (objects s endpoint) u)
    = Some httpsTrigger ->
    exists fn rest,
      issued s (fst (createV1Function imp w this endpoint scraper s))
      = gcf_createFunction fn :: rest
      /\ cf_httpsTrigger fn = Some (mkHttpsTrigger (Some "SECURE_ALWAYS") (url httpsTrigger))
      /\ forall fn', ~ In (gcf_createFunction fn') rest.
Proof.
  intros imp w this endpoint scraper s u httpsTrigger Hu Ht.
  destruct (createV1Function_run imp w this endpoint scraper s u Hu)
    as (fn & _ & Hfn & Hrun).
  rewrite Ht in Hfn. exists fn.
  destruct Hrun as [(Hi & _) | (options & _ & _ & [(Hi & _) | ((name & Hi) & _)])];
    rewrite Hi; eexists; (split; [reflexivity |]); (split; [exact Hfn |]);
    intros fn' Hin.
  - destruct Hin.
  - destruct Hin as [Hin | []]. discriminate.
  - destruct Hin as [Hin | Hin]; [discriminate |].
    eapply not_create_in_invokers. exact Hin.
Qed.

(** Creating the HTTPS function ["a"] of the scenario. *)
Lemma createV1Function_requires_https_witness :
  exists fn rest,
    issued (constructor Scenario.heap)
      (fst (createV1Function Scenario.imports Scenario.calm Scenario.args 0%nat 0%nat
              (constructor Scenario.heap)))
    = gcf_createFunction fn :: rest
    /\ cf_httpsTrigger fn = Some (mkHttpsTrigger (Some "SECURE_ALWAYS") None)
    /\ forall fn', ~ In (gcf_createFunction fn') rest.
Proof.
  exact (createV1Function_requires_https Scenario.imports Scenario.calm Scenario.args
           0%nat 0%nat (constructor Scenario.heap) "https://storage/source.zip"
           (mkHttpsTrigger None None) eq_refl eq_refl).
Defined.

Lemma invokersSet_app : forall a b, invokersSet (a ++ b) = invokersSet a ++ invokersSet b.
Proof. intros. unfold invokersSet. apply flat_map_app. Qed.

Lemma servicesFetched_app : forall a b,
  servicesFetched (a ++ b) = servicesFetched a ++ servicesFetched b.
Proof. intros. unfold servicesFetched. apply flat_map_app. Qed.

Lemma concurrencyWritten_app : forall a b,
  concurrencyWritten (a ++ b) = concurrencyWritten a ++ concurrencyWritten b.
Proof. intros. unfold concurrencyWritten. apply flat_map_app. Qed.

Lemma invokersSet_gcf : forall p n l, invokersSet (map (gcf_setInvokerCreate p n) l) = l.
Proof.
  intros p n l. unfold invokersSet, servicesFetched, concurrencyWritten.
  induction l; cbn; [| rewrite IHl]; reflexivity.
Qed.

Lemma invokersSet_run : forall p n l, invokersSet (map (run_setInvokerCreate p n) l) = l.
Proof.
  intros p n l. unfold invokersSet, servicesFetched, concurrencyWritten.
  induction l; cbn; [| rewrite IHl]; reflexivity.
Qed.

Lemma servicesFetched_invokers : forall p n l,
  servicesFetched (map (run_setInvokerCreate p n) l) = [].
Proof.
  intros p n l. unfold invokersSet, servicesFetched, concurrencyWritten.
  induction l; cbn; [| rewrite IHl]; reflexivity.
Qed.

Lemma concurrencyWritten_invokers : forall p n l,
  concurrencyWritten (map (run_setInvokerCreate p n) l) = [].
Proof.
  intros p n l. unfold invokersSet, servicesFetched, concurrencyWritten.
  induction l; cbn; [| rewrite IHl]; reflexivity.
Qed.

Lemma invokersSet_concurrencyCalls : forall w h n c,
  invokersSet (concurrencyCalls w h n c) = [].
Proof.
  intros. unfold concurrencyCalls.
  destruct (w_run_getService w h n) as [| v]; [reflexivity |].
  destruct (match containerConcurrency v with Some c0 => c0 =? c | None => false end);
    reflexivity.
Qed.

Lemma servicesFetched_concurrencyCalls : forall w h n c,
  servicesFetched (concurrencyCalls w h n c) = [n].
Proof.
  intros. unfold concurrencyCalls.
  destruct (w_run_getService w h n) as [| v]; [reflexivity |].
  destruct (match containerConcurrency v with Some c0 => c0 =? c | None => false end);
    reflexivity.
Qed.

Lemma concurrencyWritten_concurrencyCalls : forall w h n c,
  Forall (eq (Some c)) (concurrencyWritten (concurrencyCalls w h n c)).
Proof.
  intros. unfold concurrencyCalls.
  destruct (w_run_getService w h n) as [| v]; [constructor |].
  destruct (match containerConcurrency v with Some c0 => c0 =? c | None => false end);
    cbn; repeat constructor.
Qed.

Lemma create_sets_invokers : forall imp w this endpoint scraper s s' r,
  createV1Function imp w this endpoint scraper s = (s', r)
  \/ createV2Function imp w this endpoint s = (s', r) ->
  (invokersSet (issued s s') = []
   \/ invokersSet (issued s s') = createInvokers imp (objects s endpoint))
  /\ (built endpoint r ->
      invokersSet (issued s s') = createInvokers imp (objects s endpoint)).
Proof.
  intros imp w this endpoint scraper s s' r [H | H].
  - destruct (truthy_string (sourceUrl this)) as [u |] eqn:Hu.
    + destruct (createV1Function_run imp w this endpoint scraper s u Hu)
        as (fn & _ & _ & Hrun).
      rewrite H in Hrun. cbn [fst snd] in Hrun.
      destruct Hrun as [(Hi & _ & cause & ->)
                       | (options & _ & _ & [(Hi & cause & ->) | ((name & Hi) & Hr)])];
        rewrite Hi.
      * split; [left; reflexivity |].
        intros [Hb | (c & [Hb | Hb])]; discriminate.
      * split; [left; reflexivity |].
        intros [Hb | (c & [Hb | Hb])]; discriminate.
      * cbn. rewrite invokersSet_gcf. split; [right |]; reflexivity.
    + unfold createV1Function in H. rewrite Hu in H. injection H as <- <-.
      rewrite issued_refl. split; [left; reflexivity |].
      intros [Hb | (c & [Hb | Hb])]; discriminate.
  - destruct (storage this) as [sto |] eqn:Hsto.
    + destruct (createV2Function_run imp w this endpoint s sto Hsto)
        as (tc & Htc & _ & _ & Hrun).
      rewrite H in Hrun. cbn [fst snd] in Hrun. cbv zeta in Hrun.
      destruct Hrun
        as [(Hi & cause & ->)
           | (fn & [(Hi & cause & ->)
                   | (options & [(Hi & cause & ->)
                                | (svc & [(Hi & _ & cause & ->) | (Hi & Hr)])])])];
        rewrite Hi; rewrite ?invokersSet_app, ?Htc; cbn [app invokersSet flat_map].
      * split; [left; reflexivity |].
        intros [Hb | (c & [Hb | Hb])]; discriminate.
      * split; [left; reflexivity |].
        intros [Hb | (c & [Hb | Hb])]; discriminate.
      * split; [left; reflexivity |].
        intros [Hb | (c & [Hb | Hb])]; discriminate.
      * fold (invokersSet (map (run_setInvokerCreate
                                  (ep_project (objects s endpoint)) svc)
                             (createInvokers imp (objects s endpoint)))).
        rewrite invokersSet_run. split; [right |]; reflexivity.
      * fold (invokersSet (map (run_setInvokerCreate
                                  (ep_project (objects s endpoint)) svc)
                             (createInvokers imp (objects s endpoint)))).
        rewrite invokersSet_run.
        assert (invokersSet
                  (if memoryAllowsConcurrency imp (objects s endpoint)
                   then concurrencyCalls w
                          (log s ++ tc ++ gcfV2_createFunction fn
                             :: poller_pollOperation options
                             :: map (run_setInvokerCreate
                                       (ep_project (objects s endpoint)) svc)
                                  (createInvokers imp (objects s endpoint)))
                          svc
                          (or_else (truthy_number (ep_concurrency (objects s endpoint)))
                             DEFAULT_GCFV2_CONCURRENCY)
                   else []) = []) as ->.
        { destruct (memoryAllowsConcurrency imp (objects s endpoint));
            [apply invokersSet_concurrencyCalls | reflexivity]. }
        rewrite app_nil_r. split; [right |]; reflexivity.
    + unfold createV2Function in H. rewrite Hsto in H. injection H as <- <-.
      rewrite issued_refl. split; [left; reflexivity |].
      intros [Hb | (c & [Hb | Hb])]; discriminate.
Qed.

(** C6.  The invoker lists that a create assigns ([calls], from the
    set-invoker calls it issues), by trigger kind, on the v1 and on the v2
    path alike.  HTTPS: the invoker is the specified list, or ["public"] when
    none is specified; no call when the list includes ["private"]; otherwise
    that one list is assigned as soon as the function is built.  Callable,
    and blocking triggers on an auth blocking event: ["public"] is assigned
    as soon as the function is built.  Task queue: no call when no invoker is
    specified or when it includes ["private"]; otherwise the specified list.
    Before the function is built nothing is assigned. *)
Theorem invoker_policy_on_create : forall imp w this endpoint scraper s s' r,
  createV1Function imp w this endpoint scraper s = (s', r)
  \/ createV2Function imp w this endpoint s = (s', r) ->
  let calls := invokersSet (issued s s') in
  match ep_trigger (objects s endpoint) with
  | HttpsTriggered httpsInvoker =>
      let invoker := or_else httpsInvoker ["public"] in
      if includes invoker "private" then calls = []
      else (calls = [] \/ calls = [invoker]) /\ (built endpoint r -> calls = [invoker])
  | CallableTriggered =>
      (calls = [] \/ calls = [["public"]]) /\ (built endpoint r -> calls = [["public"]])
  | BlockingTriggered eventType =>
      if includes (AUTH_BLOCKING_EVENTS imp) eventType
      then (calls = [] \/ calls = [["public"]])
           /\ (built endpoint r -> calls = [["public"]])
      else calls = []
  | TaskQueueTriggered (Some invoker) =>
      if includes invoker "private" then calls = []
      else (calls = [] \/ calls = [invoker]) /\ (built endpoint r -> calls = [invoker])
  | TaskQueueTriggered None => calls = []
  | ScheduleTriggered _ => calls = []
  | EventTriggered _ => calls = []
  end.
Proof.
  intros imp w this endpoint scraper s s' r H calls.
  destruct (create_sets_invokers imp w this endpoint scraper s s' r H) as [H1 H2].
  fold calls in H1, H2. clearbody calls.
  unfold createInvokers in H1, H2.
  destruct (ep_trigger (objects s endpoint)) as [inv | | sch | ev | [inv |] | ev];
    cbv zeta;
    repeat match goal with
           | |- context [if ?b then _ else _] => destruct b
           end;
    try (destruct H1 as [H1 | H1]; exact H1);
    auto.
Qed.

(** Creating the HTTPS function ["a"] of the scenario, with no invoker
    specified, assigns ["public"]. *)
Lemma invoker_policy_on_create_witness :
  invokersSet
    (issued (constructor Scenario.heap)
       (fst (createV1Function Scenario.imports Scenario.calm Scenario.args 0%nat 0%nat
               (constructor Scenario.heap))))
  = [["public"]].
Proof.
  refine (proj2 (invoker_policy_on_create Scenario.imports Scenario.calm Scenario.args
                   0%nat 0%nat (constructor Scenario.heap) _ _
                   (or_introl (surjective_pairing _))) _).
  left. vm_compute. reflexivity.
Defined.

Lemma memoryAllowsConcurrency_iff : forall imp e,
  memoryAllowsConcurrency imp e = true
  <-> MIN_MEMORY_FOR_CONCURRENCY imp
      <= or_else (truthy_number (ep_availableMemoryMb e)) (DEFAULT_MEMORY imp)
      /\ ep_concurrency e <> Some 1.
Proof.
  intros imp e. unfold memoryAllowsConcurrency.
  rewrite andb_true_iff, Z.leb_le, negb_true_iff.
  split; intros [H1 H2]; split; auto.
  - intros Heq. rewrite Heq in H2. discriminate.
  - destruct (ep_concurrency e) as [[| [p | p |] |] |]; try reflexivity.
    contradiction H2. reflexivity.
Qed.

(** C7, as the code has it.  When the run reaches the concurrency step (it
    succeeds, or fails at "set concurrency"): on the create path the service
    is fetched, and only the target written, exactly when the memory
    (defaulted when absent) is at least the minimum and the requested
    concurrency is not 1, the target being the requested value or 80; on the
    update path the service is fetched, and only the requested value written,
    exactly when the endpoint requests a concurrency, whatever its memory. *)
Theorem concurrency_on_create_and_on_update : forall imp w this endpoint s s' r,
  let e := objects s endpoint in
  let calls := issued s s' in
  r = inr tt
  \/ (exists cause, r = inl (DeploymentError endpoint op_set_concurrency cause)) ->
  (createV2Function imp w this endpoint s = (s', r) ->
   let mem := or_else (truthy_number (ep_availableMemoryMb e)) (DEFAULT_MEMORY imp) in
   let target := or_else (truthy_number (ep_concurrency e)) 80 in
   (MIN_MEMORY_FOR_CONCURRENCY imp <= mem /\ ep_concurrency e <> Some 1 ->
    (exists serviceName, servicesFetched calls = [serviceName])
    /\ Forall (eq (Some target)) (concurrencyWritten calls))
   /\ (~ (MIN_MEMORY_FOR_CONCURRENCY imp <= mem /\ ep_concurrency e <> Some 1) ->
       servicesFetched calls = [] /\ concurrencyWritten calls = []))
  /\ (updateV2Function imp w this endpoint s = (s', r) ->
      match truthy_number (ep_concurrency e) with
      | Some concurrency =>
          (exists serviceName, servicesFetched calls = [serviceName])
          /\ Forall (eq (Some concurrency)) (concurrencyWritten calls)
      | None => servicesFetched calls = [] /\ concurrencyWritten calls = []
      end).
Proof.
  intros imp w this endpoint s s' r e calls Hr. split.
  - intros H. destruct (storage this) as [sto |] eqn:Hsto.
    2: { unfold createV2Function in H. rewrite Hsto in H. injection H as <- <-.
         destruct Hr as [Hr | [c Hr]]; discriminate. }
    destruct (createV2Function_run imp w this endpoint s sto Hsto)
      as (tc & _ & Htc1 & Htc2 & Hrun).
    rewrite H in Hrun. cbn [fst snd] in Hrun. cbv zeta in Hrun.
    fold e in Hrun. fold calls in Hrun.
    destruct Hrun
      as [(Hi & cause & ->)
         | (fn & [(Hi & cause & ->)
                 | (options & [(Hi & cause & ->)
                              | (svc & [(Hi & _ & cause & ->) | (Hi & _)])])])];
      try (destruct Hr as [Hr | [c Hr]]; discriminate).
    cbv zeta. rewrite <- memoryAllowsConcurrency_iff.
    rewrite Hi, !servicesFetched_app, !concurrencyWritten_app, Htc1, Htc2.
    cbn [app servicesFetched concurrencyWritten flat_map].
    fold (servicesFetched (map (run_setInvokerCreate (ep_project e) svc)
                             (createInvokers imp e))).
    fold (concurrencyWritten (map (run_setInvokerCreate (ep_project e) svc)
                                (createInvokers imp e))).
    rewrite servicesFetched_invokers, concurrencyWritten_invokers. cbn [app].
    destruct (memoryAllowsConcurrency imp e); split; intros Hc;
      try discriminate; try (contradiction Hc; reflexivity).
    + rewrite servicesFetched_concurrencyCalls. split; [eauto |].
      apply concurrencyWritten_concurrencyCalls.
    + split; reflexivity.
  - intros H. destruct (storage this) as [sto |] eqn:Hsto.
    2: { unfold updateV2Function in H. rewrite Hsto in H. injection H as <- <-.
         destruct Hr as [Hr | [c Hr]]; discriminate. }
    destruct (updateV2Function_run imp w this endpoint s sto Hsto) as (fn & Hrun).
    rewrite H in Hrun. cbn [fst snd] in Hrun. cbv zeta in Hrun.
    fold e in Hrun. fold calls in Hrun.
    destruct Hrun
      as [(Hi & cause & ->)
         | (options & [(Hi & cause & ->)
                      | (svc & [(Hi & cause & ->) | (Hi & _)])])];
      try (destruct Hr as [Hr | [c Hr]]; discriminate).
    rewrite Hi, !servicesFetched_app, !concurrencyWritten_app.
    assert (servicesFetched
              (gcfV2_updateFunction fn :: poller_pollOperation options
               :: match invokerOnUpdate imp e with
                  | Some invoker => [run_setInvokerUpdate (ep_project e) svc invoker]
                  | None => []
                  end) = []) as ->
      by (destruct (invokerOnUpdate imp e); reflexivity).
    assert (concurrencyWritten
              (gcfV2_updateFunction fn :: poller_pollOperation options
               :: match invokerOnUpdate imp e with
                  | Some invoker => [run_setInvokerUpdate (ep_project e) svc invoker]
                  | None => []
                  end) = []) as ->
      by (destruct (invokerOnUpdate imp e); reflexivity).
    cbn [app].
    destruct (truthy_number (ep_concurrency e)) as [concurrency |].
    + rewrite servicesFetched_concurrencyCalls. split; [eauto |].
      apply concurrencyWritten_concurrencyCalls.
    + split; reflexivity.
Qed.

(** Creating the v2 function ["wide"] of the scenario (4096 MB, no
    concurrency requested) sets the concurrency of its service to 80. *)
Lemma concurrency_on_create_and_on_update_witness :
  let out := createV2Function Scenario.imports Scenario.calm Scenario.args 5%nat
               (constructor Scenario.heap) in
  let calls := issued (constructor Scenario.heap) (fst out) in
  (exists serviceName, servicesFetched calls = [serviceName])
  /\ Forall (eq (Some 80)) (concurrencyWritten calls).
Proof.
  intros out calls.
  refine (proj1 (proj1 (concurrency_on_create_and_on_update Scenario.imports Scenario.calm
                          Scenario.args 5%nat (constructor Scenario.heap)
                          (fst out) (snd out) _)
                   (surjective_pairing out)) _).
  - left. vm_compute. reflexivity.
  - split; [vm_compute; discriminate | discriminate].
Defined.

(** C7, as the claim states it, fails on the update path: the v2 function
    ["wide"] has 4096 MB and requests no concurrency, so the condition of the
    claim holds, but its update never fetches the service. *)
Lemma update_sets_concurrency_only_on_request :
  ~ (forall imp w this endpoint s s',
       updateV2Function imp w this endpoint s = (s', inr tt) ->
       let e := objects s endpoint in
       let mem := or_else (truthy_number (ep_availableMemoryMb e)) (DEFAULT_MEMORY imp) in
       MIN_MEMORY_FOR_CONCURRENCY imp <= mem /\ ep_concurrency e <> Some 1
       <-> servicesFetched (issued s s') <> []).
Proof.
  intros H.
  assert (updateV2Function Scenario.imports Scenario.calm Scenario.args 5%nat
            (constructor Scenario.heap)
          = (fst (updateV2Function Scenario.imports Scenario.calm Scenario.args 5%nat
                    (constructor Scenario.heap)), inr tt)) as Hrun
    by (vm_compute; reflexivity).
  apply H in Hrun. cbv zeta in Hrun.
  apply (proj1 Hrun).
  - split; [vm_compute; discriminate | discriminate].
  - vm_compute. reflexivity.
Qed.

(** ** Source tokens *)



Lemma length_update_nth : forall (A : Type) (a : A) l n,
  List.length (update_nth n a l) = List.length l.
Proof.
  intros A a l. induction l as [| x l IH]; intros n.
  - unfold update_nth. rewrite firstn_nil, skipn_nil. reflexivity.
  - destruct n as [| n]; [reflexivity |].
    change (update_nth (S n) a (x :: l)) with (x :: update_nth n a l).
    cbn [List.length]. rewrite IH. reflexivity.
Qed.








Section SourceTokenReuse.

Variable imp : Imports.
Variable w : World.
Variable this : FabricatorArgs.
Variable scraper : scraper_ref.
Variable token : string.





End SourceTokenReuse.



(** * Further properties of the code *)

(** ** Properties of every call of a plan *)

Lemma respects_SourceTokenScraper_new : forall Iq P E,
  respects (fun _ => True) Iq P SourceTokenScraper_new E (fun _ => True).
Proof.
  intros Iq P E s Hs. cbn. split; [split; [exact I | apply Hs] |]. split; [| exact I].
  exists []. rewrite app_nil_r. auto.
Qed.

(** What the three endpoint operations respect, the whole plan respects. *)
Lemma applyChangeset_respects : forall Iq P imp w this changes,
  (forall endpoint scraper,
     respects (fun _ => True) Iq P (createEndpoint imp w this endpoint scraper)
       (fun _ => True) (fun _ => True)) ->
  (forall update scraper,
     respects (fun _ => True) Iq P (updateEndpoint imp w this update scraper)
       (fun _ => True) (fun _ => True)) ->
  (forall endpoint,
     respects (fun _ => True) Iq P (deleteEndpoint imp w this endpoint)
       (fun _ => True) (fun _ => True)) ->
  respects (fun _ => True) Iq P (applyChangeset imp w this changes)
    (fun _ => False) (fun _ => True).
Proof.
  intros Iq P imp w this changes Hc Hu Hd. unfold applyChangeset.
  eapply respects_bind_any; [apply respects_SourceTokenScraper_new | intros scraper].
  eapply respects_bind_any.
  { eapply respects_weaken;
      [apply respects_allSettled with (E := fun _ => False) (Q := fun _ => True)
      | auto | auto].
    intros p Hp. unfold upserts in Hp.
    apply in_app_or in Hp as [Hp | Hp]; apply in_map_iff in Hp as (x & <- & _);
      (eapply respects_weaken; [apply respects_handle | auto | auto]); auto. }
  intros settled. cbv zeta.
  destruct (existsb hasError (fulfilledValues settled)).
  - apply respects_ret. exact I.
  - eapply respects_bind_any; [| intros ?; apply respects_ret; exact I].
    eapply respects_weaken;
      [apply respects_allSettled with (E := fun _ => False) (Q := fun _ => True)
      | auto | auto].
    intros p Hp. unfold deletes in Hp. apply in_map_iff in Hp as (x & <- & _).
    eapply respects_weaken; [apply respects_handle | auto | auto]. auto.
Qed.

Lemma applyPlan_respects : forall Iq P imp w this plan,
  (forall endpoint scraper,
     respects (fun _ => True) Iq P (createEndpoint imp w this endpoint scraper)
       (fun _ => True) (fun _ => True)) ->
  (forall update scraper,
     respects (fun _ => True) Iq P (updateEndpoint imp w this update scraper)
       (fun _ => True) (fun _ => True)) ->
  (forall endpoint,
     respects (fun _ => True) Iq P (deleteEndpoint imp w this endpoint)
       (fun _ => True) (fun _ => True)) ->
  respects (fun _ => True) Iq P (applyPlan imp w this plan) (fun _ => False) (fun _ => True).
Proof.
  intros Iq P imp w this plan Hc Hu Hd. unfold applyPlan.
  eapply respects_bind_any; [apply respects_timer_new | intros timer].
  eapply respects_bind_any.
  { eapply respects_weaken;
      [apply respects_allSettled with (E := fun _ => False) (Q := fun _ => True)
      | auto | auto].
    intros p Hp. apply in_map_iff in Hp as (c & <- & _).
    apply applyChangeset_respects; assumption. }
  intros settled. cbv zeta.
  eapply respects_bind_any; [apply respects_timer_stop | intros total].
  apply respects_ret. exact I.
Qed.

(** Every call of a plan satisfies what the calls of the three endpoint
    operations satisfy. *)
Lemma applyPlan_calls : forall (P : Call -> Prop) imp w this plan s,
  (forall endpoint scraper,
     respects (fun _ => True) (fun _ => True) P (createEndpoint imp w this endpoint scraper)
       (fun _ => True) (fun _ => True)) ->
  (forall update scraper,
     respects (fun _ => True) (fun _ => True) P (updateEndpoint imp w this update scraper)
       (fun _ => True) (fun _ => True)) ->
  (forall endpoint,
     respects (fun _ => True) (fun _ => True) P (deleteEndpoint imp w this endpoint)
       (fun _ => True) (fun _ => True)) ->
  Forall P (issued s (fst (applyPlan imp w this plan s))).
Proof.
  intros P imp w this plan s Hc Hu Hd.
  destruct (applyPlan_respects (fun _ => True) P imp w this plan Hc Hu Hd s)
    as (_ & (new & Hlog & Hnew) & _).
  { split; [exact I | intros; exact I]. }
  rewrite (issued_app _ _ _ Hlog). exact Hnew.
Qed.

Ltac side_calls :=
  cbv beta;
  first
    [ exact I
    | intros; exact I
    | intros; discriminate
    | solve [cbn; intuition (auto; congruence)] ].

(** The three endpoint operations issue only calls that satisfy [P], when
    [side] proves [P] of each call in the text of the methods. *)
Ltac endpoint_operations side :=
  intros;
  lazymatch goal with
  | |- respects _ _ _ (updateEndpoint _ _ _ ?update _) _ _ =>
      unfold updateEndpoint;
      eapply respects_bind_any; [apply respects_assign | intros _];
      destruct (upd_deleteAndRecreate update);
      [ eapply respects_bind_any; [| intros _]; respects_auto side
      | respects_auto side ]
  | |- _ => respects_auto side
  end.

(** X1.  Every poll of a long-running operation that a plan issues, for a
    create, an update or a delete, on either platform, runs with a master
    timeout of 25 minutes (1 500 000 ms) and a back-off of at most 10 s, and
    against the origin and API version of one of the two functions APIs. *)
Theorem every_poll_has_the_build_timeout : forall imp w this plan s,
  Forall (pollPolicy imp) (issued s (fst (applyPlan imp w this plan s))).
Proof.
  intros. apply applyPlan_calls; endpoint_operations side_calls.
Qed.

Ltac side_private :=
  cbv beta;
  first
    [ exact I
    | intros; exact I
    | intros; discriminate
    | split; exact I
    | unfold publicOrRestricted; first [reflexivity | apply negb_true_iff; assumption] ].

(** X2.  No set-invoker call of a create, on the function (v1) or on the
    service (v2), in any plan, carries an invoker list that includes
    ["private"]: such a list is never sent, the function is left as it is
    created. *)
Theorem create_never_assigns_private : forall imp w this plan s,
  Forall publicOrRestricted (issued s (fst (applyPlan imp w this plan s))).
Proof.
  intros. apply applyPlan_calls; endpoint_operations side_private.
Qed.

Lemma topicOf_delete_pubsubTopic : forall fn,
  truthy_string (topicOf (delete_pubsubTopic fn)) = None.
Proof.
  intros fn. unfold topicOf, delete_pubsubTopic.
  destruct (v2_eventTrigger fn) eqn:E; cbn; rewrite ?E; reflexivity.
Qed.

Ltac side_topic :=
  cbv beta;
  first
    [ exact I
    | intros; exact I
    | intros; discriminate
    | split; exact I
    | lazymatch goal with
      | |- updatesWithoutTopic (gcfV2_updateFunction (match ?x with _ => _ end)) =>
          unfold updatesWithoutTopic; destruct x eqn:?;
          [apply topicOf_delete_pubsubTopic | assumption]
      end ].

(** X3.  No v2 update call of any plan submits a descriptor whose event
    trigger has a (truthy) Pub/Sub topic: the topic is deleted from the
    descriptor before the update is submitted. *)
Theorem update_never_submits_a_topic : forall imp w this plan s,
  Forall updatesWithoutTopic (issued s (fst (applyPlan imp w this plan s))).
Proof.
  intros. apply applyPlan_calls; endpoint_operations side_topic.
Qed.

Ltac side_service :=
  cbv beta;
  first
    [ exact I
    | intros; exact I
    | intros; discriminate
    | split; exact I
    | cbn; eauto ].

(** X15.  Every service that a plan writes back to set a concurrency is
    sent without its status and without the name of its revision, and with
    a concurrency. *)
Theorem replaced_service_has_no_status : forall imp w this plan s,
  Forall writesBareService (issued s (fst (applyPlan imp w this plan s))).
Proof.
  intros. apply applyPlan_calls; endpoint_operations side_service.
Qed.

(** ** Invariants of the endpoint objects *)

Section Preserves.

Variable J : (ref -> Endpoint) -> Prop.

Lemma preserves_same : forall (A : Type) (m : M A),
  (forall s, objects (fst (m s)) = objects s) -> preserves J m.
Proof. intros A m H s Hs. rewrite H. exact Hs. Qed.

Lemma preserves_bind : forall (A B : Type) (m : M A) (f : A -> M B),
  preserves J m -> (forall a, preserves J (f a)) -> preserves J (bind m f).
Proof.
  intros A B m f Hm Hf s Hs. unfold bind. specialize (Hm s Hs).
  destruct (m s) as [s1 [e | a]]; cbn [fst] in *; [exact Hm | apply Hf; exact Hm].
Qed.

Lemma preserves_catch : forall (A : Type) (m : M A) (h : Err -> M A),
  preserves J m -> (forall e, preserves J (h e)) -> preserves J (catch m h).
Proof.
  intros A m h Hm Hh s Hs. unfold catch. specialize (Hm s Hs).
  destruct (m s) as [s1 [e | a]]; cbn [fst] in *; [apply Hh; exact Hm | exact Hm].
Qed.

Lemma preserves_assign : forall r f,
  (forall objs, J objs -> J (updated objs r (f (objs r)))) -> preserves J (assign r f).
Proof. intros r f H s Hs. exact (H _ Hs). Qed.

Lemma preserves_settle : forall (A : Type) (p : M A), preserves J p -> preserves J (settle p).
Proof.
  intros A p Hp s Hs. unfold settle. specialize (Hp s Hs).
  destruct (p s) as [s1 [e | a]]; exact Hp.
Qed.

Lemma preserves_mapM : forall (A B : Type) (f : A -> M B) l,
  (forall a, In a l -> preserves J (f a)) -> preserves J (mapM f l).
Proof.
  intros A B f l. induction l as [| a l IH]; intros H; cbn [mapM].
  - apply preserves_same. reflexivity.
  - apply preserves_bind; [apply H; left; reflexivity | intros b].
    apply preserves_bind; [apply IH; intros; apply H; right; assumption | intros bs].
    apply preserves_same. reflexivity.
Qed.

Lemma preserves_allSettled : forall (A : Type) (ps : list (M A)),
  (forall p, In p ps -> preserves J p) -> preserves J (allSettled ps).
Proof.
  intros A ps H. unfold allSettled. apply preserves_mapM.
  intros p Hp. apply preserves_settle. auto.
Qed.

Lemma preserves_pollOperation_gcf : forall w options,
  preserves J (pollOperation_gcf w options).
Proof.
  intros w options. apply preserves_same. intros s.
  rewrite pollOperation_gcf_run. reflexivity.
Qed.

Lemma preserves_triggerQueue_then : forall callback,
  preserves J callback -> preserves J (triggerQueue_then callback).
Proof.
  intros callback H s Hs. unfold triggerQueue_then.
  destruct (triggerQueue s); [exact Hs |]. specialize (H s Hs).
  destruct (callback s) as [s1 [e | u]]; exact H.
Qed.

Lemma preserves_handle : forall w op endpoint fn,
  preserves J fn -> preserves J (handle w op endpoint fn).
Proof.
  intros w op endpoint fn H s Hs. unfold handle, bind, Timer_new, Timer_stop, ret.
  specialize (H s Hs). destruct (fn s) as [s1 [e | u]]; exact H.
Qed.

End Preserves.

(** One step of a derivation of [preserves]; [side] proves that the
    assignments keep the invariant. *)
Ltac preserves_step side :=
  cbv beta zeta;
  lazymatch goal with
  | |- preserves _ (bind _ _) => apply preserves_bind; [| intros ?]
  | |- preserves _ (catch _ _) => apply preserves_catch; [| intros ?]
  | |- preserves _ (Executor_run _) => unfold Executor_run
  | |- preserves _ (rethrowAs _ _ _) => apply preserves_same; reflexivity
  | |- preserves _ (ret _) => apply preserves_same; reflexivity
  | |- preserves _ (throw _) => apply preserves_same; reflexivity
  | |- preserves _ (issue _ _) => apply preserves_same; reflexivity
  | |- preserves _ (deref _) => apply preserves_same; reflexivity
  | |- preserves _ (tokenPromise _) => apply preserves_same; reflexivity
  | |- preserves _ (assign _ _) => apply preserves_assign; side
  | |- preserves _ (pollOperation_gcf _ _) => apply preserves_pollOperation_gcf
  | |- preserves _ (triggerQueue_then _) => apply preserves_triggerQueue_then
  | |- preserves _ (match ?x with _ => _ end) => destruct x eqn:?
  | |- preserves _ _ => progress autounfold with fab
  end.

Ltac preserves_auto side := repeat preserves_step side.

Section PreservesPlan.

Variable J : (ref -> Endpoint) -> Prop.
Variable imp : Imports.
Variable w : World.
Variable this : FabricatorArgs.

(** What the endpoint operations of a changeset preserve, the changeset
    preserves. *)
Lemma applyChangeset_preserves : forall changes,
  (forall endpoint scraper, In endpoint (endpointsToCreate changes) ->
     preserves J (createEndpoint imp w this endpoint scraper)) ->
  (forall update scraper, In update (endpointsToUpdate changes) ->
     preserves J (updateEndpoint imp w this update scraper)) ->
  (forall endpoint, In endpoint (endpointsToDelete changes) ->
     preserves J (deleteEndpoint imp w this endpoint)) ->
  preserves J (applyChangeset imp w this changes).
Proof.
  intros changes Hc Hu Hd. unfold applyChangeset.
  apply preserves_bind; [apply preserves_same; reflexivity | intros scraper].
  apply preserves_bind.
  { apply preserves_allSettled. intros p Hp. unfold upserts in Hp.
    apply in_app_or in Hp as [Hp | Hp]; apply in_map_iff in Hp as (x & <- & Hx);
      apply preserves_handle; auto. }
  intros settled. cbv zeta.
  destruct (existsb hasError (fulfilledValues settled)).
  - apply preserves_same. reflexivity.
  - apply preserves_bind; [| intros ?; apply preserves_same; reflexivity].
    apply preserves_allSettled. intros p Hp. unfold deletes in Hp.
    apply in_map_iff in Hp as (x & <- & Hx). apply preserves_handle. auto.
Qed.

Lemma applyPlan_preserves : forall plan,
  (forall changes, In changes (Object_values plan) ->
     preserves J (applyChangeset imp w this changes)) ->
  preserves J (applyPlan imp w this plan).
Proof.
  intros plan H. unfold applyPlan.
  apply preserves_bind; [apply preserves_same; reflexivity | intros timer].
  apply preserves_bind.
  { apply preserves_allSettled. intros p Hp.
    apply in_map_iff in Hp as (c & <- & Hc). auto. }
  intros settled. cbv zeta.
  apply preserves_bind; [apply preserves_same; reflexivity | intros total].
  apply preserves_same. reflexivity.
Qed.

End PreservesPlan.

(** *** The plan writes labels and uri, of the endpoints it upserts *)

Lemma framed_refl : forall touched objs, framed touched objs objs.
Proof. intros touched objs r. unfold sameCore. auto 10. Qed.

Lemma framed_set_labels : forall touched objs0 objs r l,
  In r touched -> framed touched objs0 objs ->
  framed touched objs0 (updated objs r (set_labels l (objs r))).
Proof.
  intros touched objs0 objs r l Hr H r'. unfold updated.
  destruct (Nat.eqb_spec r' r) as [-> | Hne]; [| apply H].
  split; [exact (proj1 (H r)) | left; exact Hr].
Qed.

Lemma framed_set_uri : forall touched objs0 objs r u,
  In r touched -> framed touched objs0 objs ->
  framed touched objs0 (updated objs r (set_uri u (objs r))).
Proof.
  intros touched objs0 objs r u Hr H r'. unfold updated.
  destruct (Nat.eqb_spec r' r) as [-> | Hne]; [| apply H].
  split; [exact (proj1 (H r)) | left; exact Hr].
Qed.

Ltac side_framed :=
  intros;
  first [ apply framed_set_labels; assumption | apply framed_set_uri; assumption ].

Section Frame.

Variable imp : Imports.
Variable w : World.
Variable this : FabricatorArgs.
Variable touched : list ref.
Variable objs0 : ref -> Endpoint.

Lemma createV1Function_framed : forall endpoint scraper,
  In endpoint touched ->
  preserves (framed touched objs0) (createV1Function imp w this endpoint scraper).
Proof. intros endpoint scraper Hin. preserves_auto side_framed. Qed.

Lemma createV2Function_framed : forall endpoint,
  In endpoint touched ->
  preserves (framed touched objs0) (createV2Function imp w this endpoint).
Proof. intros endpoint Hin. preserves_auto side_framed. Qed.

Lemma updateV1Function_framed : forall endpoint scraper,
  In endpoint touched ->
  preserves (framed touched objs0) (updateV1Function imp w this endpoint scraper).
Proof. intros endpoint scraper Hin. preserves_auto side_framed. Qed.

Lemma updateV2Function_framed : forall endpoint,
  In endpoint touched ->
  preserves (framed touched objs0) (updateV2Function imp w this endpoint).
Proof. intros endpoint Hin. preserves_auto side_framed. Qed.

Lemma deleteTrigger_framed : forall endpoint,
  preserves (framed touched objs0) (deleteTrigger imp w this endpoint).
Proof. intros endpoint. preserves_auto side_framed. Qed.

Lemma createEndpoint_framed : forall endpoint scraper,
  In endpoint touched ->
  preserves (framed touched objs0) (createEndpoint imp w this endpoint scraper).
Proof. intros endpoint scraper Hin. preserves_auto side_framed. Qed.

Lemma deleteEndpoint_framed : forall endpoint,
  preserves (framed touched objs0) (deleteEndpoint imp w this endpoint).
Proof. intros endpoint. preserves_auto side_framed. Qed.

Lemma updateEndpoint_framed : forall update scraper,
  In (upd_endpoint update) touched ->
  preserves (framed touched objs0) (updateEndpoint imp w this update scraper).
Proof.
  intros update scraper Hin. unfold updateEndpoint.
  apply preserves_bind; [apply preserves_assign; side_framed | intros _].
  destruct (upd_deleteAndRecreate update).
  - apply preserves_bind; [apply deleteEndpoint_framed | intros _].
    apply createEndpoint_framed. exact Hin.
  - preserves_auto side_framed.
Qed.

End Frame.

Lemma in_plan_upserted : forall plan changes r,
  In changes (Object_values plan) -> In r (upserted changes) -> In r (plan_upserted plan).
Proof.
  intros plan changes r Hc Hr. unfold plan_upserted. apply in_flat_map. eauto.
Qed.

(** X8.  [applyPlan] leaves the id, region, project, platform, trigger,
    runtime, memory and concurrency of every endpoint object as they were
    (it writes labels and uri only), and it leaves untouched every object
    that is not an endpoint to create or the endpoint of an update: the
    endpoints to delete and the old endpoints of a delete and recreate are
    not written. *)
Theorem applyPlan_writes_only_labels_and_uri : forall imp w this plan s r,
  let e := objects s r in
  let e' := objects (fst (applyPlan imp w this plan s)) r in
  sameCore e e' /\ (In r (plan_upserted plan) \/ e' = e).
Proof.
  intros imp w this plan s r. cbv zeta.
  assert (preserves (framed (plan_upserted plan) (objects s)) (applyPlan imp w this plan))
    as H.
  { apply applyPlan_preserves. intros changes Hc. apply applyChangeset_preserves.
    - intros endpoint scraper Hin. apply createEndpoint_framed.
      apply (in_plan_upserted plan changes); [exact Hc |].
      unfold upserted. apply in_or_app. left. exact Hin.
    - intros update scraper Hin. apply updateEndpoint_framed.
      apply (in_plan_upserted plan changes); [exact Hc |].
      unfold upserted. apply in_or_app. right. apply in_map. exact Hin.
    - intros endpoint _. apply deleteEndpoint_framed. }
  exact (H s (framed_refl _ _) r).
Qed.

(** *** The labels of the deployment tool *)

Lemma filter_none : forall (A : Type) (g : A -> bool) l,
  (forall x, In x l -> g x = false) -> filter g l = [].
Proof.
  intros A g l. induction l as [| a l IH]; intros H; cbn; [reflexivity |].
  rewrite (H a) by (left; reflexivity). apply IH. intros x Hx. apply H. right. exact Hx.
Qed.

Lemma filter_filter : forall (A : Type) (g : A -> bool) l,
  filter g (filter g l) = filter g l.
Proof.
  intros A g l. induction l as [| a l IH]; cbn; [reflexivity |].
  destruct (g a) eqn:E; cbn; rewrite ?E, IH; reflexivity.
Qed.

(** Spreading the same record twice is spreading it once. *)
Lemma spread_spread : forall a b, spread (spread a b) b = spread a b.
Proof.
  intros a b. unfold spread. rewrite filter_app, filter_filter.
  rewrite (filter_none _ _ b); [rewrite app_nil_r; reflexivity |].
  intros kv Hkv. apply negb_false_iff. apply existsb_exists.
  exists kv. split; [exact Hkv | apply String.eqb_refl].
Qed.

Section Reaches.

Variables I Q : (ref -> Endpoint) -> Prop.

Lemma reaches_bind_first : forall (A B : Type) (m : M A) (f : A -> M B),
  reaches I Q m -> (forall a, preserves Q (f a)) -> reaches I Q (bind m f).
Proof.
  intros A B m f Hm Hf s Hs. unfold bind. specialize (Hm s Hs).
  destruct (m s) as [s1 [e | a]]; cbn [fst] in *; [exact Hm | apply Hf; exact Hm].
Qed.

(** After a step that returns, and keeps the objects. *)
Lemma reaches_bind_total : forall (A B : Type) (m : M A) (f : A -> M B),
  (forall s, exists s1 a, m s = (s1, inr a) /\ objects s1 = objects s) ->
  (forall a, reaches I Q (f a)) -> reaches I Q (bind m f).
Proof.
  intros A B m f Hm Hf s Hs. destruct (Hm s) as (s1 & a & E & Ho).
  unfold bind. rewrite E. apply Hf. rewrite Ho. exact Hs.
Qed.

Lemma reaches_bind_settle : forall (A B : Type) (q : M A) (f : PromiseResult A -> M B),
  preserves I q -> (forall a, reaches I Q (f a)) -> reaches I Q (bind (settle q) f).
Proof.
  intros A B q f Hq Hf s Hs. unfold bind, settle. specialize (Hq s Hs).
  destruct (q s) as [s1 [e | a]]; cbn [fst] in *; apply Hf; exact Hq.
Qed.

Lemma reaches_settle : forall (A : Type) (p : M A), reaches I Q p -> reaches I Q (settle p).
Proof.
  intros A p Hp s Hs. unfold settle. specialize (Hp s Hs).
  destruct (p s) as [s1 [e | a]]; exact Hp.
Qed.

Lemma reaches_handle : forall w op endpoint fn,
  reaches I Q fn -> reaches I Q (handle w op endpoint fn).
Proof.
  intros w op endpoint fn H s Hs. unfold handle, bind, Timer_new, Timer_stop, ret.
  specialize (H s Hs). destruct (fn s) as [s1 [e | u]]; exact H.
Qed.

(** One promise reaches [Q], which the later ones preserve. *)
Lemma reaches_allSettled : forall (A : Type) (ps : list (M A)) p,
  In p ps ->
  (forall q, In q ps -> preserves I q) ->
  (forall q, In q ps -> preserves Q q) ->
  reaches I Q p ->
  reaches I Q (allSettled ps).
Proof.
  intros A ps p Hin HI HQ Hp. unfold allSettled.
  induction ps as [| q ps IH]; [contradiction |]. cbn [mapM].
  destruct Hin as [-> | Hin].
  - apply reaches_bind_first; [apply reaches_settle; exact Hp | intros b].
    apply preserves_bind; [| intros bs; apply preserves_same; reflexivity].
    apply preserves_mapM. intros q Hq. apply preserves_settle. apply HQ. right. exact Hq.
  - apply reaches_bind_settle; [apply HI; left; reflexivity | intros b].
    apply reaches_bind_first; [| intros bs; apply preserves_same; reflexivity].
    apply IH; [exact Hin | |]; intros q' Hq'; [apply HI | apply HQ]; right; exact Hq'.
Qed.

Variable imp : Imports.
Variable w : World.
Variable this : FabricatorArgs.
Variable r : ref.

Hypothesis create_I : forall endpoint scraper,
  preserves I (createEndpoint imp w this endpoint scraper).
Hypothesis update_I : forall update scraper,
  preserves I (updateEndpoint imp w this update scraper).
Hypothesis delete_I : forall endpoint, preserves I (deleteEndpoint imp w this endpoint).
Hypothesis create_Q : forall endpoint scraper,
  preserves Q (createEndpoint imp w this endpoint scraper).
Hypothesis update_Q : forall update scraper,
  preserves Q (updateEndpoint imp w this update scraper).
Hypothesis delete_Q : forall endpoint, preserves Q (deleteEndpoint imp w this endpoint).
Hypothesis create_reaches : forall scraper,
  reaches I Q (createEndpoint imp w this r scraper).
Hypothesis update_reaches : forall update scraper,
  upd_endpoint update = r -> reaches I Q (updateEndpoint imp w this update scraper).

Lemma upserts_preserve : forall (J : (ref -> Endpoint) -> Prop) changes scraper q,
  (forall endpoint scraper, preserves J (createEndpoint imp w this endpoint scraper)) ->
  (forall update scraper, preserves J (updateEndpoint imp w this update scraper)) ->
  In q (upserts imp w this changes scraper) -> preserves J q.
Proof.
  intros J changes scraper q Hc Hu Hq. unfold upserts in Hq.
  apply in_app_or in Hq as [Hq | Hq]; apply in_map_iff in Hq as (x & <- & _);
    apply preserves_handle; auto.
Qed.

Lemma applyChangeset_reaches : forall changes,
  In r (upserted changes) -> reaches I Q (applyChangeset imp w this changes).
Proof.
  intros changes Hin. unfold applyChangeset.
  apply reaches_bind_total; [intros s; eexists _, _; split; reflexivity | intros scraper].
  apply reaches_bind_first.
  - unfold upserted in Hin. apply in_app_or in Hin as [Hin | Hin].
    + apply reaches_allSettled
        with (p := handle w op_create r (createEndpoint imp w this r scraper)).
      * unfold upserts. apply in_or_app. left.
        apply (in_map (fun endpoint =>
                 handle w op_create endpoint (createEndpoint imp w this endpoint scraper))).
        exact Hin.
      * intros q. apply upserts_preserve; assumption.
      * intros q. apply upserts_preserve; assumption.
      * apply reaches_handle. apply create_reaches.
    + apply in_map_iff in Hin as (update & Hr & Hin).
      apply reaches_allSettled
        with (p := handle w op_update (upd_endpoint update)
                     (updateEndpoint imp w this update scraper)).
      * unfold upserts. apply in_or_app. right.
        apply (in_map (fun update =>
                 handle w op_update (upd_endpoint update)
                   (updateEndpoint imp w this update scraper))).
        exact Hin.
      * intros q. apply upserts_preserve; assumption.
      * intros q. apply upserts_preserve; assumption.
      * apply reaches_handle. apply update_reaches. exact Hr.
  - intros settled. cbv zeta.
    destruct (existsb hasError (fulfilledValues settled)).
    + apply preserves_same. reflexivity.
    + apply preserves_bind; [| intros ?; apply preserves_same; reflexivity].
      apply preserves_allSettled. intros p Hp. unfold deletes in Hp.
      apply in_map_iff in Hp as (x & <- & Hx). apply preserves_handle. apply delete_Q.
Qed.

Lemma applyPlan_reaches : forall plan,
  In r (plan_upserted plan) -> reaches I Q (applyPlan imp w this plan).
Proof.
  intros plan Hin. unfold plan_upserted in Hin.
  apply in_flat_map in Hin as (changes & Hc & Hin). unfold applyPlan.
  apply reaches_bind_total; [intros s; eexists _, _; split; reflexivity | intros timer].
  apply reaches_bind_first.
  - apply reaches_allSettled with (p := applyChangeset imp w this changes).
    + apply in_map. exact Hc.
    + intros q Hq. apply in_map_iff in Hq as (c & <- & _).
      apply applyChangeset_preserves; auto.
    + intros q Hq. apply in_map_iff in Hq as (c & <- & _).
      apply applyChangeset_preserves; auto.
    + apply applyChangeset_reaches. exact Hin.
  - intros settled. cbv zeta.
    apply preserves_bind; [apply preserves_same; reflexivity | intros total].
    apply preserves_same. reflexivity.
Qed.

End Reaches.

Section Labels.

Variable imp : Imports.
Variable w : World.
Variable this : FabricatorArgs.
Variable r : ref.
Variable K : list (string * string) -> Prop.

Hypothesis K_spread : forall l, K l -> K (spread l (deploymentTool_labels imp)).

Lemma labels_in_set_labels : forall objs r',
  labels_in K r objs ->
  labels_in K r
    (updated objs r'
       (set_labels (spread (ep_labels (objs r')) (deploymentTool_labels imp)) (objs r'))).
Proof.
  intros objs r' H. unfold labels_in, updated in *.
  destruct (Nat.eqb_spec r r') as [<- | Hne]; [apply K_spread |]; exact H.
Qed.

Lemma labels_in_set_uri : forall objs r' u,
  labels_in K r objs -> labels_in K r (updated objs r' (set_uri u (objs r'))).
Proof.
  intros objs r' u H. unfold labels_in, updated in *.
  destruct (Nat.eqb_spec r r') as [<- | Hne]; exact H.
Qed.

Lemma createEndpoint_labels : forall endpoint scraper,
  preserves (labels_in K r) (createEndpoint imp w this endpoint scraper).
Proof.
  intros endpoint scraper.
  preserves_auto
    ltac:(intros; first [apply labels_in_set_labels | apply labels_in_set_uri]; assumption).
Qed.

Lemma deleteEndpoint_labels : forall endpoint,
  preserves (labels_in K r) (deleteEndpoint imp w this endpoint).
Proof.
  intros endpoint.
  preserves_auto
    ltac:(intros; first [apply labels_in_set_labels | apply labels_in_set_uri]; assumption).
Qed.

Lemma updateEndpoint_labels : forall update scraper,
  preserves (labels_in K r) (updateEndpoint imp w this update scraper).
Proof.
  intros update scraper. unfold updateEndpoint.
  apply preserves_bind;
    [apply preserves_assign; intros; apply labels_in_set_labels; assumption | intros _].
  destruct (upd_deleteAndRecreate update).
  - apply preserves_bind; [apply deleteEndpoint_labels | intros _].
    apply createEndpoint_labels.
  - preserves_auto
      ltac:(intros; first [apply labels_in_set_labels | apply labels_in_set_uri];
            assumption).
Qed.

End Labels.

(** Stamping the labels of [r], whose labels were [l0] or are stamped. *)
Lemma stamp_reaches : forall imp r l0,
  reaches
    (labels_in (fun l => l = l0 \/ l = spread l0 (deploymentTool_labels imp)) r)
    (labels_in (fun l => l = spread l0 (deploymentTool_labels imp)) r)
    (assign r (fun e => set_labels (spread (ep_labels e) (deploymentTool_labels imp)) e)).
Proof.
  intros imp r l0 s Hs. unfold labels_in in *. cbn. rewrite Nat.eqb_refl. cbn.
  destruct Hs as [-> | ->]; [reflexivity | apply spread_spread].
Qed.

(** X9.  After [applyPlan], the labels of every endpoint to create and of
    the endpoint of every update are the labels it had, spread with the
    labels of the deployment tool (whose keys win), whether its deployment
    succeeded or failed, and however often the plan refers to it. *)
Theorem upserted_endpoints_carry_the_tool_labels : forall imp w this plan s r,
  In r (plan_upserted plan) ->
  ep_labels (objects (fst (applyPlan imp w this plan s)) r)
  = spread (ep_labels (objects s r)) (deploymentTool_labels imp).
Proof.
  intros imp w this plan s r Hin.
  assert (forall l, (l = ep_labels (objects s r)
                     \/ l = spread (ep_labels (objects s r)) (deploymentTool_labels imp)) ->
                    spread l (deploymentTool_labels imp) = ep_labels (objects s r)
                    \/ spread l (deploymentTool_labels imp)
                       = spread (ep_labels (objects s r)) (deploymentTool_labels imp)) as K0.
  { intros l [-> | ->]; right; [reflexivity | apply spread_spread]. }
  assert (forall l, l = spread (ep_labels (objects s r)) (deploymentTool_labels imp) ->
                    spread l (deploymentTool_labels imp)
                    = spread (ep_labels (objects s r)) (deploymentTool_labels imp)) as K1.
  { intros l ->. apply spread_spread. }
  change (labels_in
            (fun l => l = spread (ep_labels (objects s r)) (deploymentTool_labels imp)) r
            (objects (fst (applyPlan imp w this plan s)))).
  apply (applyPlan_reaches
           (labels_in
              (fun l => l = ep_labels (objects s r)
                        \/ l = spread (ep_labels (objects s r)) (deploymentTool_labels imp)) r)
           (labels_in
              (fun l => l = spread (ep_labels (objects s r)) (deploymentTool_labels imp)) r)
           imp w this r); [| | | | | | | | exact Hin |].
  - intros. apply createEndpoint_labels. exact K0.
  - intros. apply updateEndpoint_labels. exact K0.
  - intros. apply deleteEndpoint_labels.
  - intros. apply createEndpoint_labels. exact K1.
  - intros. apply updateEndpoint_labels. exact K1.
  - intros. apply deleteEndpoint_labels.
  - intros scraper. unfold createEndpoint.
    apply reaches_bind_first; [apply stamp_reaches | intros _].
    change (preserves
              (labels_in
                 (fun l => l = spread (ep_labels (objects s r)) (deploymentTool_labels imp)) r)
              (e <- deref r ;;
               match ep_platform e with
               | gcfv1 => createV1Function imp w this r scraper
               | gcfv2 => createV2Function imp w this r
               end ;;
               setTrigger imp w this r false)).
    preserves_auto
      ltac:(intros; first [apply labels_in_set_labels | apply labels_in_set_uri];
            assumption).
  - intros update scraper <-. unfold updateEndpoint.
    apply reaches_bind_first; [apply stamp_reaches | intros _].
    destruct (upd_deleteAndRecreate update).
    + apply preserves_bind; [apply deleteEndpoint_labels | intros _].
      apply createEndpoint_labels. exact K1.
    + change (preserves
                (labels_in
                   (fun l => l = spread (ep_labels (objects s (upd_endpoint update)))
                                   (deploymentTool_labels imp)) (upd_endpoint update))
                (e <- deref (upd_endpoint update) ;;
                 match ep_platform e with
                 | gcfv1 => updateV1Function imp w this (upd_endpoint update) scraper
                 | gcfv2 => updateV2Function imp w this (upd_endpoint update)
                 end ;;
                 setTrigger imp w this (upd_endpoint update) true)).
      preserves_auto
        ltac:(intros; first [apply labels_in_set_labels | apply labels_in_set_uri];
              assumption).
  - left. reflexivity.
Qed.

(** The function ["a"] of the scenario, created with no labels of its own. *)
Lemma upserted_endpoints_carry_the_tool_labels_witness :
  ep_labels
    (objects
       (fst (applyPlan Scenario.imports Scenario.calm Scenario.args Scenario.create_a
               (constructor Scenario.heap))) 0%nat)
  = [("deployment-tool", "cli-firebase")].
Proof.
  exact (upserted_endpoints_carry_the_tool_labels Scenario.imports Scenario.calm
           Scenario.args Scenario.create_a (constructor Scenario.heap) 0%nat
           (or_introl eq_refl)).
Defined.

(** ** The invoker on the update path *)

Lemma invokersUpdated_app : forall a b,
  invokersUpdated (a ++ b) = invokersUpdated a ++ invokersUpdated b.
Proof. intros. apply flat_map_app. Qed.

Lemma invokersUpdated_concurrencyCalls : forall w h n c,
  invokersUpdated (concurrencyCalls w h n c) = [].
Proof.
  intros. unfold concurrencyCalls.
  destruct (w_run_getService w h n) as [| v]; [reflexivity |].
  destruct (match containerConcurrency v with Some c0 => c0 =? c | None => false end);
    reflexivity.
Qed.

Lemma update_sets_invokers : forall imp w this endpoint scraper s s' r,
  updateV1Function imp w this endpoint scraper s = (s', r)
  \/ updateV2Function imp w this endpoint s = (s', r) ->
  let expected := match invokerOnUpdate imp (objects s endpoint) with
                  | Some invoker => [invoker]
                  | None => []
                  end in
  (invokersUpdated (issued s s') = [] \/ invokersUpdated (issued s s') = expected)
  /\ (updatedFunction endpoint r -> invokersUpdated (issued s s') = expected).
Proof.
  intros imp w this endpoint scraper s s' r [H | H]; cbv zeta.
  - destruct (truthy_string (sourceUrl this)) as [u |] eqn:Hu.
    + destruct (updateV1Function_run imp w this endpoint scraper s u Hu)
        as (fn & _ & Hrun).
      rewrite H in Hrun. cbn [fst snd] in Hrun.
      destruct Hrun as [(Hi & _ & cause & ->)
                       | (options & _ & _ & [(Hi & cause & ->) | ((name & Hi) & Hr)])];
        rewrite Hi.
      * split; [left; reflexivity |].
        intros [Hb | (c & [Hb | Hb])]; discriminate.
      * split; [left; reflexivity |].
        intros [Hb | (c & [Hb | Hb])]; discriminate.
      * destruct (invokerOnUpdate imp (objects s endpoint));
          (split; [right |]; reflexivity).
    + unfold updateV1Function in H. rewrite Hu in H. injection H as <- <-.
      rewrite issued_refl. split; [left; reflexivity |].
      intros [Hb | (c & [Hb | Hb])]; discriminate.
  - destruct (storage this) as [sto |] eqn:Hsto.
    + destruct (updateV2Function_run imp w this endpoint s sto Hsto) as (fn & Hrun).
      rewrite H in Hrun. cbn [fst snd] in Hrun. cbv zeta in Hrun.
      destruct Hrun
        as [(Hi & cause & ->)
           | (options & [(Hi & cause & ->)
                        | (svc & [(Hi & cause & ->) | (Hi & Hr)])])];
        rewrite Hi.
      * split; [left; reflexivity |].
        intros [Hb | (c & [Hb | Hb])]; discriminate.
      * split; [left; reflexivity |].
        intros [Hb | (c & [Hb | Hb])]; discriminate.
      * destruct (invokerOnUpdate imp (objects s endpoint));
          (split; [right |]; reflexivity).
      * rewrite invokersUpdated_app.
        assert (invokersUpdated
                  match truthy_number (ep_concurrency (objects s endpoint)) with
                  | Some concurrency =>
                      concurrencyCalls w
                        (log s ++ gcfV2_updateFunction fn :: poller_pollOperation options
                           :: match invokerOnUpdate imp (objects s endpoint) with
                              | Some invoker =>
                                  [run_setInvokerUpdate (ep_project (objects s endpoint))
                                     svc invoker]
                              | None => []
                              end)
                        svc concurrency
                  | None => []
                  end = []) as ->.
        { destruct (truthy_number (ep_concurrency (objects s endpoint)));
            [apply invokersUpdated_concurrencyCalls | reflexivity]. }
        rewrite app_nil_r.
        destruct (invokerOnUpdate imp (objects s endpoint));
          (split; [right |]; reflexivity).
    + unfold updateV2Function in H. rewrite Hsto in H. injection H as <- <-.
      rewrite issued_refl. split; [left; reflexivity |].
      intros [Hb | (c & [Hb | Hb])]; discriminate.
Qed.

(** X4.  The invoker lists that an update in place assigns ([calls], from
    the set-invoker calls it issues), by trigger kind, on the v1 and on the
    v2 path alike.  HTTPS and task queue: the specified list as it is, also
    when it includes ["private"], and no call when none is specified (no
    default to ["public"], unlike a create).  Blocking triggers on an auth
    blocking event: ["public"].  Callable, scheduled and event triggers, and
    other blocking triggers: no call.  The call is issued as soon as the
    function is updated; before that nothing is assigned. *)
Theorem invoker_policy_on_update : forall imp w this endpoint scraper s s' r,
  updateV1Function imp w this endpoint scraper s = (s', r)
  \/ updateV2Function imp w this endpoint s = (s', r) ->
  let calls := invokersUpdated (issued s s') in
  match ep_trigger (objects s endpoint) with
  | HttpsTriggered (Some invoker) =>
      (calls = [] \/ calls = [invoker]) /\ (updatedFunction endpoint r -> calls = [invoker])
  | TaskQueueTriggered (Some invoker) =>
      (calls = [] \/ calls = [invoker]) /\ (updatedFunction endpoint r -> calls = [invoker])
  | BlockingTriggered eventType =>
      if includes (AUTH_BLOCKING_EVENTS imp) eventType
      then (calls = [] \/ calls = [["public"]])
           /\ (updatedFunction endpoint r -> calls = [["public"]])
      else calls = []
  | HttpsTriggered None => calls = []
  | TaskQueueTriggered None => calls = []
  | CallableTriggered => calls = []
  | ScheduleTriggered _ => calls = []
  | EventTriggered _ => calls = []
  end.
Proof.
  intros imp w this endpoint scraper s s' r H calls.
  destruct (update_sets_invokers imp w this endpoint scraper s s' r H) as [H1 H2].
  fold calls in H1, H2. clearbody calls.
  unfold invokerOnUpdate in H1, H2.
  destruct (ep_trigger (objects s endpoint)) as [[inv |] | | sch | ev | [inv |] | ev];
    try (destruct H1 as [H1 | H1]; exact H1);
    try (split; [exact H1 | exact H2]).
  destruct (includes (AUTH_BLOCKING_EVENTS imp) ev).
  - split; [exact H1 | exact H2].
  - destruct H1 as [H1 | H1]; exact H1.
Qed.

(** Updating in place the HTTPS function ["restricted"], whose invoker is
    ["private"], assigns ["private"]. *)
Lemma invoker_policy_on_update_witness :
  invokersUpdated
    (issued (constructor Cases.heap)
       (fst (updateV1Function Scenario.imports Scenario.calm Scenario.args 0%nat 0%nat
               (constructor Cases.heap))))
  = [["private"]].
Proof.
  refine (proj2 (invoker_policy_on_update Scenario.imports Scenario.calm Scenario.args
                   0%nat 0%nat (constructor Cases.heap) _ _
                   (or_introl (surjective_pairing _))) _).
  left. vm_compute. reflexivity.
Defined.

(** ** Scheduled functions of the second generation *)

(** X6.  Scheduled functions of the second generation are not implemented.
    Deleting such an endpoint issues no call, changes nothing and throws the
    [DeploymentError] of the endpoint for ["delete schedule"] with the cause
    ["Not implemented"]: the function is never deleted.  Creating it, or
    updating it in place, always ends in an error, whatever the
    collaborators answer. *)
Theorem scheduled_v2_is_not_implemented : forall imp w this endpoint scraper s schedule,
  ep_platform (objects s endpoint) = gcfv2 ->
  ep_trigger (objects s endpoint) = ScheduleTriggered schedule ->
  deleteEndpoint imp w this endpoint s
  = (s, inl (DeploymentError endpoint op_delete_schedule (JsError "Not implemented")))
  /\ (exists e, snd (createEndpoint imp w this endpoint scraper s) = inl e)
  /\ (exists e,
        snd (updateEndpoint imp w this (mkEndpointUpdate endpoint None) scraper s) = inl e).
Proof.
  intros imp w this endpoint scraper s schedule Hp Ht.
  assert (forall s3 s' (r : Err + unit),
            framed [endpoint] (objects s) (objects s3) ->
            forall update, setTrigger imp w this endpoint update s3 = (s', r) ->
            exists e, r = inl e) as Hset.
  { intros s3 s' r H3 update E. destruct (H3 endpoint) as [(_ & _ & _ & Hp3 & Ht3 & _) _].
    unfold setTrigger in E. rewrite bind_deref, Ht3, Ht, Hp3, Hp in E.
    unfold upsertScheduleV2, throw in E. injection E as _ <-. eauto. }
  assert (framed [endpoint] (objects s)
            (updated (objects s) endpoint
               (set_labels (spread (ep_labels (objects s endpoint)) (deploymentTool_labels imp))
                  (objects s endpoint)))) as Hlab.
  { apply framed_set_labels; [left; reflexivity | apply framed_refl]. }
  split; [| split].
  - unfold deleteEndpoint, deleteTrigger. unfold bind at 1.
    rewrite bind_deref, Ht, Hp. reflexivity.
  - destruct (createEndpoint imp w this endpoint scraper s) as [s' r] eqn:E. cbn [snd].
    destruct r as [e | []]; [eauto |]. exfalso.
    unfold createEndpoint in E. rewrite bind_assign, bind_deref in E.
    apply bind_inv in E as [(s3 & [] & E3 & E) | (e & _ & Habs)]; [| discriminate].
    assert (framed [endpoint] (objects s) (objects s3)) as H3.
    { change s3 with (fst (s3, @inr Err unit tt)). rewrite <- E3.
      cbn [objects]. rewrite Nat.eqb_refl.
      destruct (ep_platform
                  (set_labels (spread (ep_labels (objects s endpoint))
                                 (deploymentTool_labels imp)) (objects s endpoint)));
        [apply createV1Function_framed | apply createV2Function_framed];
        try (left; reflexivity); exact Hlab. }
    destruct (Hset _ _ _ H3 _ E) as [e He]. discriminate.
  - destruct (updateEndpoint imp w this (mkEndpointUpdate endpoint None) scraper s)
      as [s' r] eqn:E. cbn [snd].
    destruct r as [e | []]; [eauto |]. exfalso.
    unfold updateEndpoint in E. cbn [upd_endpoint upd_deleteAndRecreate] in E.
    rewrite bind_assign, bind_deref in E.
    apply bind_inv in E as [(s3 & [] & E3 & E) | (e & _ & Habs)]; [| discriminate].
    assert (framed [endpoint] (objects s) (objects s3)) as H3.
    { change s3 with (fst (s3, @inr Err unit tt)). rewrite <- E3.
      cbn [objects]. rewrite Nat.eqb_refl.
      destruct (ep_platform
                  (set_labels (spread (ep_labels (objects s endpoint))
                                 (deploymentTool_labels imp)) (objects s endpoint)));
        [apply updateV1Function_framed | apply updateV2Function_framed];
        try (left; reflexivity); exact Hlab. }
    destruct (Hset _ _ _ H3 _ E) as [e He]. discriminate.
Qed.

(** The scheduled v2 function ["nightly"]. *)
Lemma scheduled_v2_is_not_implemented_witness :
  deleteEndpoint Scenario.imports Scenario.calm Scenario.args 1%nat (constructor Cases.heap)
  = (constructor Cases.heap,
     inl (DeploymentError 1%nat op_delete_schedule (JsError "Not implemented")))
  /\ (exists e,
        snd (createEndpoint Scenario.imports Scenario.calm Scenario.args 1%nat 0%nat
               (constructor Cases.heap)) = inl e)
  /\ (exists e,
        snd (updateEndpoint Scenario.imports Scenario.calm Scenario.args
               (mkEndpointUpdate 1%nat None) 0%nat (constructor Cases.heap)) = inl e).
Proof.
  exact (scheduled_v2_is_not_implemented Scenario.imports Scenario.calm Scenario.args
           1%nat 0%nat (constructor Cases.heap) "every 24 hours" eq_refl eq_refl).
Defined.

(** ** Deleting an endpoint *)

Lemma functionDeletes_app : forall a b,
  functionDeletes (a ++ b) = functionDeletes a ++ functionDeletes b.
Proof. intros. apply flat_map_app. Qed.

Lemma functionDeletes_keepsFunctions : forall calls,
  Forall keepsFunctions calls -> functionDeletes calls = [].
Proof.
  intros calls H. induction H as [| c l Hc _ IH]; [reflexivity |].
  change (c :: l) with ([c] ++ l). unfold functionDeletes in *.
  rewrite flat_map_app, IH, app_nil_r. exact Hc.
Qed.

Lemma deleteTrigger_keeps_functions : forall imp w this endpoint,
  respects (fun _ => True) (fun _ => True) keepsFunctions
    (deleteTrigger imp w this endpoint) (fun _ => True) (fun _ => True).
Proof.
  intros.
  respects_auto
    ltac:(cbv beta;
          first [ exact I | intros; exact I | intros; discriminate | split; exact I
                | reflexivity ]).
Qed.

(** X5.  [deleteEndpoint] tears down the trigger first.  Either it fails
    before any function is asked to be deleted (the teardown of the trigger
    failed), or it asks for the deletion of exactly one function, the one
    named after the endpoint, and then succeeds or fails with a
    [DeploymentError] of the endpoint for the operation ["delete"]. *)
Theorem function_is_deleted_after_its_trigger : forall imp w this endpoint s,
  let out := deleteEndpoint imp w this endpoint s in
  let calls := functionDeletes (issued s (fst out)) in
  (calls = [] /\ exists e, snd out = inl e)
  \/ (calls = [backend_functionName imp (objects s endpoint)]
      /\ (snd out = inr tt
          \/ exists cause, snd out = inl (DeploymentError endpoint op_delete cause))).
Proof.
  intros imp w this endpoint s. cbv zeta.
  destruct (deleteTrigger_keeps_functions imp w this endpoint s)
    as (_ & (new & Hlog & Hnew) & _).
  { split; [exact I | intros; exact I]. }
  assert (objects (fst (deleteTrigger imp w this endpoint s)) endpoint = objects s endpoint)
    as Hobj.
  { destruct (deleteTrigger_framed imp w this [] (objects s) endpoint s (framed_refl _ _)
                endpoint) as [_ [[] | H]].
    exact H. }
  destruct (deleteTrigger imp w this endpoint s) as [s1 r1] eqn:E1. cbn [fst snd] in *.
  unfold deleteEndpoint. destruct r1 as [e | []].
  - erewrite bind_fail by exact E1. left. cbn [fst snd].
    rewrite (issued_app _ _ _ Hlog).
    split; [apply functionDeletes_keepsFunctions; exact Hnew | eauto].
  - erewrite bind_ok by exact E1. rewrite bind_deref, Hobj. right.
    assert (forall calls s2,
              log s2 = log s1 ++ calls ->
              functionDeletes calls = [backend_functionName imp (objects s endpoint)] ->
              functionDeletes (issued s s2)
              = [backend_functionName imp (objects s endpoint)]) as Hcalls.
    { intros calls s2 H2 Hd. rewrite Hlog, <- app_assoc in H2.
      rewrite (issued_app _ _ _ H2), functionDeletes_app, Hd.
      rewrite (functionDeletes_keepsFunctions new Hnew). reflexivity. }
    destruct (ep_platform (objects s endpoint)).
    + unfold deleteV1Function. rewrite bind_deref, catch_issue_then, Hobj.
      destruct (w_gcf_deleteFunction w (log s1) _) as [cause | op]; cbn [fst snd].
      * split; [eapply Hcalls; reflexivity | eauto].
      * rewrite bind_deref. unfold pollOperation_void, issue.
        destruct (w_pollOperation_void w _ _) as [cause | []]; cbn [fst snd];
          (split; [eapply Hcalls; [cbn; rewrite <- app_assoc |]; reflexivity | eauto]).
    + unfold deleteV2Function. rewrite bind_deref, catch_issue_then, Hobj.
      destruct (w_gcfV2_deleteFunction w (log s1) _) as [cause | op]; cbn [fst snd].
      * split; [eapply Hcalls; reflexivity | eauto].
      * rewrite bind_deref. unfold pollOperation_void, issue.
        destruct (w_pollOperation_void w _ _) as [cause | []]; cbn [fst snd];
          (split; [eapply Hcalls; [cbn; rewrite <- app_assoc |]; reflexivity | eauto]).
Qed.

(** ** The Pub/Sub topic of a create *)

Lemma respects_grows : forall (A : Type) (m : M A),
  respects (fun _ => True) (fun _ => True) (fun _ => True) m (fun _ => True) (fun _ => True) ->
  grows m.
Proof.
  intros A m H s. destruct (H s) as (_ & (new & Hlog & _) & _).
  - split; [exact I | intros; exact I].
  - eauto.
Qed.

Ltac side_any := cbv beta; first [exact I | intros; exact I | split; exact I].

(** The first call of a task that an executor runs, whatever follows. *)
Lemma first_call : forall (A B C : Type) c (o : History -> Err + A) (k1 : A -> M B)
    (k2 : B -> M C) endpoint kind s,
  (forall a, grows (k1 a)) -> (forall b, grows (k2 b)) ->
  exists rest,
    log (fst (bind (catch (Executor_run (bind (issue c o) k1)) (rethrowAs endpoint kind)) k2 s))
    = log s ++ c :: rest.
Proof.
  intros A B C c o k1 k2 endpoint kind s H1 H2. unfold bind at 1.
  rewrite catch_issue_then. destruct (o (log s)) as [cause | a].
  - exists []. reflexivity.
  - destruct (H1 a (logged s [c])) as [new1 Hnew1].
    destruct (k1 a (logged s [c])) as [s1 [cause | b]]; cbn [fst] in *.
    + exists new1. rewrite Hnew1. cbn. rewrite <- app_assoc. reflexivity.
    + destruct (H2 b s1) as [new2 Hnew2]. exists (new1 ++ new2).
      rewrite Hnew2, Hnew1. cbn. rewrite <- !app_assoc. reflexivity.
Qed.

(** [err.status === 409] *)
Lemma status_409 : forall (A : Type) err (x y : A),
  match status err with
  | Some 409 => x
  | _ => y
  end
  = if match status err with
       | Some c => c =? 409
       | None => false
       end
    then x else y.
Proof.
  intros A err x y. destruct (status err) as [z |]; [| reflexivity].
  destruct (Z.eqb_spec z 409) as [-> | Hne]; [reflexivity |].
  destruct z as [| p | p]; try reflexivity.
  do 9 (destruct p as [p | p |]; try reflexivity).
  contradiction Hne. reflexivity.
Qed.

Lemma createTopic_run : forall w endpoint topic s,
  catch
    (Executor_run
       (catch
          (issue (pubsub_createTopic topic) (fun h => w_pubsub_createTopic w h topic))
          (fun err =>
             match status err with
             | Some 409 => ret tt
             | _ => throw (FirebaseError "Unexpected error creating Pub/Sub topic" err)
             end)))
    (rethrowAs endpoint op_create_topic) s
  = (logged s [pubsub_createTopic topic],
     match w_pubsub_createTopic w (log s) topic with
     | inr u => inr u
     | inl err =>
         if match status err with
            | Some c => c =? 409
            | None => false
            end
         then inr tt
         else inl (DeploymentError endpoint op_create_topic
                     (FirebaseError "Unexpected error creating Pub/Sub topic" err))
     end).
Proof.
  intros w endpoint topic s. unfold catch, Executor_run, issue, rethrowAs.
  destruct (w_pubsub_createTopic w (log s) topic) as [err | u]; [| reflexivity].
  rewrite status_409.
  destruct (match status err with Some c => c =? 409 | None => false end); reflexivity.
Qed.

(** X7.  A v2 create whose descriptor has a Pub/Sub topic first creates the
    topic.  When the topic is created, or the creation is rejected with
    status 409 (the topic exists), the create call of the function follows
    with the descriptor built from the endpoint.  On any other rejection
    nothing else is called, and the error is the [DeploymentError] of the
    endpoint for ["create topic"], whose cause is the [FirebaseError]
    ["Unexpected error creating Pub/Sub topic"] that wraps the rejection. *)
Theorem existing_topic_is_tolerated : forall imp w this endpoint s sto topic,
  storage this = Some sto ->
  let e := objects s endpoint in
  let fn := gcfV2_functionFromEndpoint imp e (lookup sto (ep_region e)) in
  truthy_string (topicOf fn) = Some topic ->
  let out := createV2Function imp w this endpoint s in
  let proceeds :=
    firstn 2 (issued s (fst out)) = [pubsub_createTopic topic; gcfV2_createFunction fn] in
  match w_pubsub_createTopic w (log s) topic with
  | inr _ => proceeds
  | inl err =>
      match status err with
      | Some 409 => proceeds
      | _ =>
          issued s (fst out) = [pubsub_createTopic topic]
          /\ snd out
             = inl (DeploymentError endpoint op_create_topic
                      (FirebaseError "Unexpected error creating Pub/Sub topic" err))
      end
  end.
Proof.
  intros imp w this endpoint s sto topic Hsto e fn Htopic out proceeds.
  assert (forall u : unit,
            w_pubsub_createTopic w (log s) topic = inr u
            \/ (exists err, w_pubsub_createTopic w (log s) topic = inl err
                            /\ match status err with
                               | Some c => c =? 409
                               | None => false
                               end = true) ->
            proceeds) as Hproceeds.
  { intros u Hw. subst proceeds out. unfold createV2Function.
    rewrite Hsto, bind_deref. cbv zeta. fold e. fold fn.
    unfold topicOf in Htopic. rewrite Htopic.
    unfold bind at 1. rewrite createTopic_run.
    assert (match w_pubsub_createTopic w (log s) topic with
            | inr u0 => inr u0
            | inl err =>
                if match status err with
                   | Some c => c =? 409
                   | None => false
                   end
                then inr tt
                else inl (DeploymentError endpoint op_create_topic
                            (FirebaseError "Unexpected error creating Pub/Sub topic" err))
            end = @inr Err unit tt) as ->.
    { destruct Hw as [-> | (err & -> & ->)]; [destruct u |]; reflexivity. }
    match goal with
    | |- firstn 2 (issued s (fst (bind (catch (Executor_run (bind (issue ?c ?o) ?k1)) _) ?k2
                                    ?s1))) = _ =>
        destruct (first_call _ _ _ c o k1 k2 endpoint op_create s1) as [rest Hrest]
    end.
    - intros a. apply respects_grows. respects_auto side_any.
    - intros b. apply respects_grows. respects_auto side_any.
    - cbn [log logged] in Hrest. rewrite <- app_assoc in Hrest.
      rewrite (issued_app _ _ _ Hrest). reflexivity. }
  destruct (w_pubsub_createTopic w (log s) topic) as [err | u] eqn:Hw.
  - rewrite status_409.
    destruct (match status err with Some c => c =? 409 | None => false end) eqn:H409.
    + apply (Hproceeds tt). right. eauto.
    + clear Hproceeds. subst proceeds out.
      destruct (createV2Function imp w this endpoint s) as [s' r] eqn:E.
      unfold createV2Function in E. rewrite Hsto, bind_deref in E.
      cbv zeta in E. fold e in E. fold fn in E.
      unfold topicOf in Htopic. rewrite Htopic in E.
      unfold bind at 1 in E. rewrite createTopic_run, Hw, H409 in E.
      injection E as <- <-. split; [apply issued_logged | reflexivity].
  - apply (Hproceeds u). left. reflexivity.
Qed.

(** The v2 function ["on-message"], when its topic exists already. *)
Lemma existing_topic_is_tolerated_witness :
  firstn 2
    (issued (constructor Cases.heap)
       (fst (createV2Function Scenario.imports Cases.topic_exists Scenario.args 2%nat
               (constructor Cases.heap))))
  = [pubsub_createTopic "topic";
     gcfV2_createFunction
       (gcfV2_functionFromEndpoint Scenario.imports (Cases.heap 2%nat)
          (Some (mkStorageSource "bucket" "source.zip")))].
Proof.
  exact (existing_topic_is_tolerated Scenario.imports Cases.topic_exists Scenario.args
           2%nat (constructor Cases.heap)
           [("us-central1", mkStorageSource "bucket" "source.zip")] "topic"
           eq_refl eq_refl).
Defined.

(** ** The two ways of an update *)

Ltac side_way :=
  cbv beta;
  first [ exact I | intros; exact I | intros; discriminate | split; exact I | reflexivity ].

(** X10.  The two ways of [updateEndpoint].  With [deleteAndRecreate] it
    issues no update call of the functions APIs (no function update, no
    set-invoker of an update), and registers a blocking trigger as new.
    Without, it creates and deletes nothing (no function, no topic), assigns
    no invoker of a create, tears down no schedule, queue or blocking
    trigger, and registers a blocking trigger as an update. *)
Theorem update_is_in_place_or_recreates : forall imp w this update scraper s,
  let calls := issued s (fst (updateEndpoint imp w this update scraper s)) in
  match upd_deleteAndRecreate update with
  | Some _ => Forall recreateCall calls
  | None => Forall inPlaceCall calls
  end.
Proof.
  intros imp w this update scraper s. cbv zeta.
  assert (forall P,
            respects (fun _ => True) (fun _ => True) P
              (updateEndpoint imp w this update scraper) (fun _ => True) (fun _ => True) ->
            Forall P (issued s (fst (updateEndpoint imp w this update scraper s)))) as H.
  { intros P HP. destruct (HP s) as (_ & (new & Hlog & Hnew) & _).
    - split; [exact I | intros; exact I].
    - rewrite (issued_app _ _ _ Hlog). exact Hnew. }
  destruct (upd_deleteAndRecreate update) as [old |] eqn:Hway; apply H; unfold updateEndpoint;
    rewrite Hway; respects_auto side_way.
Qed.

(** ** The helpers of the extensions commands *)

Section PopulateDefaultParams.

Import ExtensionsHelper.

Variable V : Type.
Variable truthy : V -> bool.

Lemma lookup_set_same : forall (obj : Obj V) key v, lookup (set obj key v) key = Some v.
Proof.
  intros obj key v. induction obj as [| [k x] tl IH]; cbn.
  - rewrite String.eqb_refl. reflexivity.
  - destruct (String.eqb k key) eqn:E; cbn; rewrite E; [reflexivity | exact IH].
Qed.

Lemma lookup_set_other : forall (obj : Obj V) key v key',
  key' <> key -> lookup (set obj key v) key' = lookup obj key'.
Proof.
  intros obj key v key' Hne. induction obj as [| [k x] tl IH]; cbn.
  - destruct (String.eqb_spec key key'); [congruence | reflexivity].
  - destruct (String.eqb_spec k key) as [-> | Hk]; cbn.
    + destruct (String.eqb_spec key key'); [congruence | reflexivity].
    + rewrite IH. reflexivity.
Qed.

Lemma missingParam_eq : forall name,
  FirebaseError
    (name ++ " has not been set in the given params file"
     ++ " and there is no default available. Please set this variable before installing again.")
  = missingParam name.
Proof. reflexivity. Qed.


End PopulateDefaultParams.

(** X11.  [populateDefaultParams] writes in the object of the caller, and
    only fills gaps: whether it returns or throws, the value of a key is the
    one the caller gave, unless that was falsy (or absent) and the spec has
    an entry for the key with a truthy default, which is then the value.  A
    truthy value of the params file is never overwritten, and keys that the
    spec does not name are left alone. *)
Theorem populateDefaultParams_only_fills_gaps :
  forall (V : Type) (truthy : V -> bool) paramVars paramSpec key,
    let out := ExtensionsHelper.populateDefaultParams truthy paramVars paramSpec in
    lookup (fst out) key = lookup paramVars key
    \/ (ExtensionsHelper.isTruthy truthy (lookup paramVars key) = false
        /\ exists env d,
             In env paramSpec /\ ExtensionsHelper.param env = key
             /\ ExtensionsHelper.default env = Some d
             /\ truthy d = true /\ lookup (fst out) key = Some d).
Proof.
  intros V truthy paramVars paramSpec. revert paramVars.
  induction paramSpec as [| env rest IH]; intros paramVars key; cbv zeta.
  - left. reflexivity.
  - cbn [ExtensionsHelper.populateDefaultParams].
    destruct (ExtensionsHelper.isTruthy truthy
                (lookup paramVars (ExtensionsHelper.param env))) eqn:Hv; cbn [negb].
    + destruct (IH paramVars key) as [H | (Hf & env' & d & Hin & H)];
        [left; exact H | right].
      split; [exact Hf |]. exists env', d. split; [right; exact Hin | exact H].
    + destruct (ExtensionsHelper.default env) as [d |] eqn:Hd; [| left; reflexivity].
      destruct (truthy d) eqn:Ht; [| left; reflexivity].
      destruct (String.eqb_spec key (ExtensionsHelper.param env)) as [-> | Hne].
      * right. split; [exact Hv |]. exists env, d.
        repeat (split; [first [left; reflexivity | reflexivity | assumption] |]).
        destruct (IH (ExtensionsHelper.set paramVars (ExtensionsHelper.param env) d)
                    (ExtensionsHelper.param env))
          as [H | (Hf & _)].
        -- rewrite H. apply lookup_set_same.
        -- rewrite lookup_set_same in Hf. cbn in Hf. congruence.
      * destruct (IH (ExtensionsHelper.set paramVars (ExtensionsHelper.param env) d) key)
          as [H | (Hf & env' & d' & Hin & H)].
        -- left. rewrite H. apply lookup_set_other. exact Hne.
        -- right. rewrite lookup_set_other in Hf by exact Hne.
           split; [exact Hf |]. exists env', d'. split; [right; exact Hin | exact H].
Qed.



(** X13.  [populateDefaultParams] throws only for a param of the spec that
    has no truthy value in the params file and no truthy default, and the
    message of the [FirebaseError] starts with the name of that param. *)
Theorem populateDefaultParams_throws_for_a_missing_param :
  forall (V : Type) (truthy : V -> bool) paramVars paramSpec,
    let out := ExtensionsHelper.populateDefaultParams truthy paramVars paramSpec in
    snd out = None
    \/ exists env,
         In env paramSpec
         /\ snd out = Some (missingParam (ExtensionsHelper.param env))
         /\ ExtensionsHelper.isTruthy truthy (lookup paramVars (ExtensionsHelper.param env))
            = false
         /\ ExtensionsHelper.isTruthy truthy (ExtensionsHelper.default env) = false.
Proof.
  intros V truthy paramVars paramSpec. revert paramVars.
  induction paramSpec as [| env rest IH]; intros paramVars; cbv zeta; [left; reflexivity |].
  cbn [ExtensionsHelper.populateDefaultParams].
  assert (forall vars,
            (forall key, ExtensionsHelper.isTruthy truthy (lookup paramVars key) = true ->
                         lookup vars key = lookup paramVars key) ->
            snd (ExtensionsHelper.populateDefaultParams truthy vars rest) = None
            \/ exists env0,
                 In env0 (env :: rest)
                 /\ snd (ExtensionsHelper.populateDefaultParams truthy vars rest)
                    = Some (missingParam (ExtensionsHelper.param env0))
                 /\ ExtensionsHelper.isTruthy truthy
                      (lookup paramVars (ExtensionsHelper.param env0)) = false
                 /\ ExtensionsHelper.isTruthy truthy (ExtensionsHelper.default env0) = false)
    as Hrest.
  { intros vars Hvars. destruct (IH vars) as [H | (env0 & Hin & H & Hv0 & Hd0)];
      [left; exact H | right].
    exists env0. split; [right; exact Hin |]. split; [exact H |]. split; [| exact Hd0].
    destruct (ExtensionsHelper.isTruthy truthy
                (lookup paramVars (ExtensionsHelper.param env0))) eqn:E; [| reflexivity].
    rewrite (Hvars _ E) in Hv0. congruence. }
  destruct (ExtensionsHelper.isTruthy truthy (lookup paramVars (ExtensionsHelper.param env)))
    eqn:Hv; cbn [negb].
  - apply Hrest. reflexivity.
  - destruct (ExtensionsHelper.default env) as [d |] eqn:Hd.
    + destruct (truthy d) eqn:Ht.
      * apply Hrest. intros key Hkey. apply lookup_set_other.
        intros ->. congruence.
      * right. exists env. rewrite Hd. cbn. auto using in_eq.
    + right. exists env. rewrite Hd. cbn. auto using in_eq.
Qed.

(** *** The instance id that ends the prompt *)

Lemma instanceIdRegex_rest_shape : forall s,
  ExtensionsHelper.instanceIdRegex_rest s = true
  <-> exists middle d,
        s = (middle ++ String d EmptyString)%string
        /\ ExtensionsHelper.lowercase d || ExtensionsHelper.digit d = true
        /\ forall x, In x (list_ascii_of_string middle) ->
             ExtensionsHelper.lowercase x || ExtensionsHelper.digit x
             || ExtensionsHelper.dash x = true.
Proof.
  induction s as [| c s IH].
  - split; [discriminate |]. intros (middle & d & H & _).
    destruct middle; discriminate.
  - cbn [ExtensionsHelper.instanceIdRegex_rest]. destruct s as [| c' s'].
    + split.
      * intros H. exists EmptyString, c. split; [reflexivity |]. split; [exact H |].
        intros x [].
      * intros (middle & d & H & Hd & _). destruct middle as [| m middle].
        -- cbn in H. injection H as ->. exact Hd.
        -- cbn in H. injection H as _ H. destruct middle; discriminate.
    + rewrite andb_true_iff, IH. split.
      * intros (Hc & middle & d & -> & Hd & Hm).
        exists (String c middle), d. split; [reflexivity |]. split; [exact Hd |].
        intros x [<- | Hx]; [exact Hc | apply Hm; exact Hx].
      * intros (middle & d & H & Hd & Hm). destruct middle as [| m middle].
        -- cbn in H. discriminate.
        -- cbn in H. injection H as <- H. split; [apply Hm; left; reflexivity |].
           exists middle, d. split; [exact H |]. split; [exact Hd |].
           intros x Hx. apply Hm. right. exact Hx.
Qed.

(** The test of the loop accepts exactly the valid ids. *)
Lemma accepted_iff_valid : forall id,
  ((String.length id <=? 6)%nat || (45 <=? String.length id)%nat = false
   /\ ExtensionsHelper.instanceIdRegex_test id = true)
  <-> validInstanceId id.
Proof.
  intros id. unfold validInstanceId, ExtensionsHelper.instanceIdRegex_test.
  rewrite orb_false_iff, Nat.leb_gt, Nat.leb_gt. split.
  - intros ([H6 H45] & Ht). split; [lia |]. destruct id as [| c rest]; [discriminate |].
    apply andb_true_iff in Ht as [Hc Hr].
    apply instanceIdRegex_rest_shape in Hr as (middle & d & -> & Hd & Hm).
    exists c, middle, d. auto.
  - intros (Hlen & c & middle & d & -> & Hc & Hd & Hm). split; [split; lia |].
    apply andb_true_iff. split; [exact Hc |].
    apply instanceIdRegex_rest_shape. exists middle, d. auto.
Qed.

(** X14.  [promptForValidInstanceId] asks until an answer is a valid
    instance id, and returns the first such answer: an id of 7 to 44
    characters (6 and 45 are refused, whatever the message says) that starts
    with a lowercase letter, ends with a lowercase letter or a digit, and
    holds only lowercase letters, digits and dashes in between. *)
Theorem promptForValidInstanceId_returns_the_first_valid_id : forall answers id,
  ExtensionsHelper.promptForValidInstanceId answers = Some id
  <-> exists before after,
        answers = before ++ id :: after
        /\ validInstanceId id
        /\ Forall (fun answer => ~ validInstanceId answer) before.
Proof.
  induction answers as [| a later IH]; intros id.
  - split; [discriminate |]. intros (before & after & H & _).
    destruct before; discriminate.
  - cbn [ExtensionsHelper.promptForValidInstanceId].
    pose proof (accepted_iff_valid a) as Ha.
    destruct ((String.length a <=? 6)%nat || (45 <=? String.length a)%nat) eqn:Hlen;
      [| destruct (ExtensionsHelper.instanceIdRegex_test a) eqn:Ht; cbn [negb]].
    + assert (~ validInstanceId a) as Hna by (intros Hv; apply Ha in Hv as [? _]; discriminate).
      rewrite IH. split.
      * intros (before & after & -> & Hv & Hb).
        exists (a :: before), after. split; [reflexivity |]. split; [exact Hv |].
        constructor; assumption.
      * intros (before & after & H & Hv & Hb). destruct before as [| b before].
        -- cbn in H. injection H as -> _. contradiction.
        -- cbn in H. injection H as -> ->. inversion Hb; subst. eauto.
    + assert (validInstanceId a) as Hva by (apply Ha; auto).
      split.
      * intros H. injection H as <-. exists [], later. auto.
      * intros (before & after & H & Hv & Hb). destruct before as [| b before].
        -- cbn in H. injection H as -> _. reflexivity.
        -- cbn in H. injection H as -> ->. inversion Hb; subst. contradiction.
    + assert (~ validInstanceId a) as Hna by (intros Hv; apply Ha in Hv as [_ ?]; discriminate).
      rewrite IH. split.
      * intros (before & after & -> & Hv & Hb).
        exists (a :: before), after. split; [reflexivity |]. split; [exact Hv |].
        constructor; assumption.
      * intros (before & after & H & Hv & Hb). destruct before as [| b before].
        -- cbn in H. injection H as -> _. contradiction.
        -- cbn in H. injection H as -> ->. inversion Hb; subst. eauto.
Qed.
